(** * monitor_control.py: capabilities parser and VCP property layer

    A shallow embedding of [src/monitor_control.py].

    - Python [str] values are [string]s; a character is an [ascii] read as
      the code point 0..255 (the program decodes the monitor's reply with
      [decode('ascii')]).
    - Python [int]s are [Z]; positions, levels and VCP values are all [Z],
      negative indices included.
    - Python [dict]s are stdpp [gmap]s; [d[k]] on a missing key raises
      [KeyError].
    - Exceptions are an explicit error type; the two calls into dxva2 are
      the events of a small free monad, interpreted against any adapter. *)

From Stdlib Require Import ZArith QArith Ascii String List Lia.
From stdpp Require Import base option list gmap strings pretty.

Local Open Scope string_scope.
Local Open Scope list_scope.
Local Open Scope Z_scope.

(** ** Exceptions *)

Inductive exn : Type :=
| KeyError (key : string)          (* d[k] with k not in d *)
| UnboundLocalError (var : string) (* local read before assignment *)
| IndexError                       (* s[i] or l[i] out of range *)
| ZeroDivisionError                (* x // 0 *)
| WinError.                        (* a dxva2 call returned 0 *)

Inductive result (A : Type) : Type :=
| Ok (a : A)
| Err (e : exn).
Arguments Ok {A} a.
Arguments Err {A} e.

#[global] Instance result_ret : MRet result := λ A a, Ok a.
#[global] Instance result_bind : MBind result := λ A B k r,
  match r with
  | Ok a => k a
  | Err e => Err e
  end.

(** [d[k]] for a Python dict. *)
Definition getitem {K} `{Countable K} {V} (show : K → string)
    (d : gmap K V) (k : K) : result V :=
  match d !! k with
  | Some v => Ok v
  | None => Err (KeyError (show k))
  end.

(** ** Python string primitives *)

Definition chars (s : string) : list ascii := list_ascii_of_string s.
Definition str (l : list ascii) : string := string_of_list_ascii l.
Definition len (s : string) : Z := Z.of_nat (List.length (chars s)).

(** Bound of a slice [s[a:b]] (step 1): a negative bound counts from the
    end, and both are clipped to [0, len]. *)
Definition slice_bound (n i : Z) : Z :=
  if i <? 0 then Z.max 0 (i + n) else Z.min i n.

(** [s[a:b]] *)
Definition slice (s : string) (a b : Z) : string :=
  let lo := slice_bound (len s) a in
  let hi := slice_bound (len s) b in
  str (take (Z.to_nat (hi - lo)) (drop (Z.to_nat lo) (chars s))).

(** [s[i]]: a negative index counts from the end; out of range raises. *)
Definition index (s : string) (i : Z) : result ascii :=
  let j := if i <? 0 then i + len s else i in
  if (0 <=? j) && (j <? len s) then
    match chars s !! Z.to_nat j with
    | Some c => Ok c
    | None => Err IndexError
    end
  else Err IndexError.

(** [chr.isspace()] on the code points 0..255: TAB, LF, VT, FF, CR, the
    four separators FS GS RS US, SPACE, NEL and NBSP. *)
Definition isspace (c : ascii) : bool :=
  let n := Z.of_nat (nat_of_ascii c) in
  ((9 <=? n) && (n <=? 13)) || ((28 <=? n) && (n <=? 32))
  || (n =? 133) || (n =? 160).

(** [s.split()]: the maximal runs of non-whitespace characters. *)
Fixpoint split_aux (cur : list ascii) (l : list ascii) : list string :=
  match l with
  | [] => match cur with [] => [] | _ => [str (rev cur)] end
  | c :: l' =>
      if isspace c then
        match cur with
        | [] => split_aux [] l'
        | _ => str (rev cur) :: split_aux [] l'
        end
      else split_aux (c :: cur) l'
  end.

Definition split (s : string) : list string := split_aux [] (chars s).

Definition ascii_eqb (a b : ascii) : bool := Ascii.eqb a b.

Definition lparen : ascii := "("%char.
Definition rparen : ascii := ")"%char.

(** ** The capabilities parser *)

(** Value of a VCP code in the [vcp] group: [None] is Python's [None],
    [Some l] the list produced by [split]. *)
Abbreviation vcp_value := (option (list string)).

(** What [parse_capabilities_string] stores under a top-level key. *)
Inductive cap_value : Type :=
| Raw (s : string)                     (* the body as it stands *)
| Tokens (l : list string)             (* cmds: body.split() *)
| Vcp (d : gmap string vcp_value).     (* vcp: _parse_vcp_list(body) *)

(** Locals of [_parse_vcp_list]; [code] is unbound until the first ['(']. *)
Record vcp_locals : Type := {
  vcp_dict : gmap string vcp_value;
  v_open_p : Z;
  code : option string;
}.

(** Body of the loop of [_parse_vcp_list] at position [i], character
    [chr]. *)
Definition vcp_step (vcp_list : string) (i : Z) (chr : ascii)
    (st : vcp_locals) : result vcp_locals :=
  if ascii_eqb chr lparen then
    Ok {| vcp_dict := vcp_dict st;
          v_open_p := i;
          code := Some (slice vcp_list (i - 2) i) |}
  else if ascii_eqb chr rparen then
    match code st with
    | None => Err (UnboundLocalError "code")
    | Some c =>
        Ok {| vcp_dict :=
                <[c := Some (split (slice vcp_list (v_open_p st + 1) i))]>
                  (vcp_dict st);
              v_open_p := v_open_p st;
              code := code st |}
    end
  else if isspace chr then
    prev ← index vcp_list (i - 1);
    if negb (ascii_eqb prev rparen) then
      Ok {| vcp_dict := <[slice vcp_list (i - 2) i := None]> (vcp_dict st);
            v_open_p := v_open_p st;
            code := code st |}
    else Ok st
  else Ok st.

(** [for i, chr in enumerate(...)], from position [i] on. *)
Fixpoint vcp_loop (vcp_list : string) (i : Z) (rest : list ascii)
    (st : vcp_locals) : result vcp_locals :=
  match rest with
  | [] => Ok st
  | chr :: rest' =>
      st' ← vcp_step vcp_list i chr st;
      vcp_loop vcp_list (i + 1) rest' st'
  end.

Definition _parse_vcp_list (vcp_list : string)
    : result (gmap string vcp_value) :=
  st ← vcp_loop vcp_list 0 (chars vcp_list)
         {| vcp_dict := ∅; v_open_p := 0; code := None |};
  Ok (vcp_dict st).

(** Locals of [parse_capabilities_string]. *)
Record cap_locals : Type := {
  level : Z;
  capabilities : gmap string cap_value;
  open_p : gmap Z Z;
  close_p : gmap Z Z;
  ident : gmap Z string;   (* the local named [id] *)
}.

Definition show_Z (z : Z) : string := pretty z.

Definition cap_init : cap_locals :=
  {| level := 0; capabilities := ∅; open_p := ∅;
     close_p := {[ 0 := 0 ]}; ident := ∅ |}.

(** Body of the loop of [parse_capabilities_string]. *)
Definition cap_step (capabilities_string : string) (i : Z) (chr : ascii)
    (st : cap_locals) : result cap_locals :=
  if ascii_eqb chr lparen then
    if i =? 0 then
      (* close_p[0] = 1; continue *)
      Ok {| level := level st; capabilities := capabilities st;
            open_p := open_p st; close_p := <[0 := 1]> (close_p st);
            ident := ident st |}
    else
      let open_p' := <[level st := i]> (open_p st) in
      ident' ←
        (if level st =? 0 then
           c ← getitem show_Z (close_p st) 0;
           Ok (<[0 := slice capabilities_string (c + 1) i]> (ident st))
         else Ok (ident st));
      Ok {| level := level st + 1; capabilities := capabilities st;
            open_p := open_p'; close_p := close_p st; ident := ident' |}
  else if ascii_eqb chr rparen then
    let level' := level st - 1 in
    let close_p' := <[level' := i]> (close_p st) in
    if level' =? 0 then
      o ← getitem show_Z (open_p st) 0;
      let values := slice capabilities_string (o + 1) i in
      k ← getitem show_Z (ident st) 0;
      v ← (if String.eqb k "cmds" then Ok (Tokens (split values))
           else
             k' ← getitem show_Z (ident st) 0;
             if String.eqb k' "vcp" then
               d ← _parse_vcp_list values; Ok (Vcp d)
             else Ok (Raw values));
      k'' ← getitem show_Z (ident st) 0;
      Ok {| level := level'; capabilities := <[k'' := v]> (capabilities st);
            open_p := open_p st; close_p := close_p'; ident := ident st |}
    else
      Ok {| level := level'; capabilities := capabilities st;
            open_p := open_p st; close_p := close_p'; ident := ident st |}
  else Ok st.

Fixpoint cap_loop (capabilities_string : string) (i : Z)
    (rest : list ascii) (st : cap_locals) : result cap_locals :=
  match rest with
  | [] => Ok st
  | chr :: rest' =>
      st' ← cap_step capabilities_string i chr st;
      cap_loop capabilities_string (i + 1) rest' st'
  end.

Definition parse_capabilities_string (capabilities_string : string)
    : result (gmap string cap_value) :=
  st ← cap_loop capabilities_string 0 (chars capabilities_string) cap_init;
  Ok (capabilities st).

Definition canonical : string :=
  "(prot(monitor)type(lcd)model(U2713HM)cmds(01 02 03)vcp(02 04 14(01 04 05) 60(01 03 04 0F) AC)mccs_ver(2.1))".

(** ** Shape of a text *)

(** First parenthesis of a text, if it has one. *)
Fixpoint first_paren (l : list ascii) : option ascii :=
  match l with
  | [] => None
  | c :: l' =>
      if ascii_eqb c lparen then Some lparen
      else if ascii_eqb c rparen then Some rparen
      else first_paren l'
  end.

(** Parentheses match: no [)] without an open [(], none left open. *)
Fixpoint balanced_from (depth : nat) (l : list ascii) : bool :=
  match l with
  | [] => Nat.eqb depth 0
  | c :: l' =>
      if ascii_eqb c lparen then balanced_from (S depth) l'
      else if ascii_eqb c rparen then
        match depth with
        | O => false
        | S depth' => balanced_from depth' l'
        end
      else balanced_from depth l'
  end.

Definition balanced (s : string) : bool := balanced_from 0 (chars s).

(** What the loop of [parse_capabilities_string] maintains after the
    prefix [pre]: [close_p[0]] is set, and inside a group (level 1 or
    more) [open_p[0]] and [id[0]] are set, [open_p[0]] is a position of
    [pre], and the text after it never closes a parenthesis it did not
    open. *)
Definition cap_inv (pre : list ascii) (st : cap_locals) : Prop :=
  is_Some (close_p st !! 0)
  ∧ (1 ≤ level st →
     ∃ (o : nat) (k : string),
       open_p st !! 0 = Some (Z.of_nat o)
       ∧ ident st !! 0 = Some k
       ∧ (o < length pre)%nat
       ∧ first_paren (drop (S o) pre) ≠ Some rparen
       ∧ (2 ≤ level st → first_paren (drop (S o) pre) = Some lparen)).

(** ** The VCP registry *)

(** The entries of the dict literal [vcp_codes], in source order.  Their
    names are pairwise distinct ([vcp_codes_names_distinct]), so the
    literal's last-wins rule never applies. *)
Definition vcp_codes_items : list (string * Z) :=
  [
    ("New Control Value", 0x02);
    ("Restore Factory Defaults", 0x04);
    ("Restore Factory Luminance/ Contrast Defaults", 0x05);
    ("Restore Factory Geometry Defaults", 0x06);
    ("Restore Factory Color Defaults", 0x08);
    ("Luminance", 0x10);
    ("Contrast", 0x12);
    ("Select Color Preset", 0x14);
    ("Video Gain (Drive): Red", 0x16);
    ("Video Gain (Drive): Green", 0x18);
    ("Video Gain (Drive): Blue", 0x1A);
    ("Active Control", 0x52);
    ("Input Source", 0x60);
    ("Video Black Level: Red", 0x16);
    ("Video Black Level: Green", 0x18);
    ("Video Black Level: Blue", 0x1A);
    ("Horizontal Frequency", 0xAC);
    ("Vertical Frequency", 0xAE);
    ("Flat Panel Sub-Pixel Layout", 0xB2);
    ("Display Technology Type", 0xB6);
    ("Application Enable Key", 0xC6);
    ("Display Controller Type", 0xC8);
    ("Display Firmware Level", 0xC9);
    ("OSD", 0xCA);
    ("Power Mode", 0xD6);
    ("Display Application", 0xDC);
    ("VCP Version", 0xDF);
    ("Dell-E0", 0xE0);
    ("Dell-E1", 0xE1);
    ("Dell-E2", 0xE2);
    ("Dell-F0", 0xF0);
    ("Dell-F1", 0xF1);
    ("Dell-F2", 0xF2);
    ("Dell-FD", 0xFD)
  ].

Definition vcp_codes : gmap string Z := list_to_map vcp_codes_items.

Definition _color_presets_i : gmap string Z :=
  list_to_map [("srgb", 0x01); ("5000k", 0x04); ("6500k", 0x05);
               ("7500k", 0x06); ("9300k", 0x08); ("10000k", 0x09);
               ("5700k", 0x0B); ("user", 0x0C)].

Definition _input_sources_i : gmap string Z :=
  list_to_map [("vga", 0x01); ("dvi", 0x03); ("hdmi", 0x04); ("dp", 0x0F)].

Definition _display_applications_i : gmap string Z :=
  list_to_map [("std", 0x00); ("mix", 0x02); ("mov", 0x03); ("gam", 0x05)].

Definition _power_mode_i : gmap string Z :=
  list_to_map [("on", 0x01); ("off", 0x05)].

(** ** Device programs *)

(** A method of [Display] is a tree of calls into dxva2: it returns,
    raises, or issues [GetVCPFeatureAndVCPFeatureReply] or [SetVCPFeature]
    and goes on with the reply. *)
Inductive io (A : Type) : Type :=
| Ret (a : A)
| Raise (e : exn)
| GetVCPFeatureAndVCPFeatureReply (code : Z) (k : Z * Z → io A)
| SetVCPFeature (code value : Z) (k : io A).
Arguments Ret {A} a.
Arguments Raise {A} e.
Arguments GetVCPFeatureAndVCPFeatureReply {A} code k.
Arguments SetVCPFeature {A} code value k.

Fixpoint io_bind {A B} (k : A → io B) (p : io A) : io B :=
  match p with
  | Ret a => k a
  | Raise e => Raise e
  | GetVCPFeatureAndVCPFeatureReply c k' =>
      GetVCPFeatureAndVCPFeatureReply c (λ r, io_bind k (k' r))
  | SetVCPFeature c v p' => SetVCPFeature c v (io_bind k p')
  end.

#[global] Instance io_ret : MRet io := λ A a, Ret a.
#[global] Instance io_mbind : MBind io := λ A B k p, io_bind k p.

(** A pure, possibly raising, expression inside a method. *)
Definition lift {A} (r : result A) : io A :=
  match r with
  | Ok a => Ret a
  | Err e => Raise e
  end.

Definition _get_vcf_feature_and_vcf_feature_reply (code : Z) : io (Z * Z) :=
  GetVCPFeatureAndVCPFeatureReply code Ret.

Definition _set_vcp_feature (code value : Z) : io unit :=
  SetVCPFeature code value (Ret tt).

(** The [if value > max: ... elif value < 0: ...] of the numeric setters. *)
Definition clamp (value max : Z) : Z :=
  if value >? max then max else if value <? 0 then 0 else value.

Definition name_key (s : string) : string := s.

Definition set_brightness (value : Z) : io unit :=
  c ← lift (getitem name_key vcp_codes "Luminance");
  '(current, max) ← _get_vcf_feature_and_vcf_feature_reply c;
  if value =? current then Ret tt
  else
    let value := clamp value max in
    c' ← lift (getitem name_key vcp_codes "Luminance");
    _set_vcp_feature c' value.

Definition set_contrast (value : Z) : io unit :=
  c ← lift (getitem name_key vcp_codes "Contrast");
  '(current, max) ← _get_vcf_feature_and_vcf_feature_reply c;
  if value =? current then Ret tt
  else
    let value := clamp value max in
    c' ← lift (getitem name_key vcp_codes "Contrast");
    _set_vcp_feature c' value.

(** [value / 1000] is Python's true division of two ints: the float it
    returns is the binary64 nearest to the rational computed here. *)
Definition horizontal_frequency : io Q :=
  c ← lift (getitem name_key vcp_codes "Horizontal Frequency");
  '(value, _) ← _get_vcf_feature_and_vcf_feature_reply c;
  let value := if value <? 50000 then Z.lor value 0x10000 else value in
  Ret (Qmake value 1000).

Definition color_temperature : io Z :=
  c ← lift (getitem name_key vcp_codes "Color Temperature Request");
  '(value, _) ← _get_vcf_feature_and_vcf_feature_reply c;
  c' ← lift (getitem name_key vcp_codes "Color Temperature Increment");
  '(increment, _) ← _get_vcf_feature_and_vcf_feature_reply c';
  Ret (3000 + increment * value).

Definition set_color_temperature (value : Z) : io unit :=
  c ← lift (getitem name_key vcp_codes "Color Temperature Request");
  '(current, max) ← _get_vcf_feature_and_vcf_feature_reply c;
  c' ← lift (getitem name_key vcp_codes "Color Temperature Increment");
  '(increment, _) ← _get_vcf_feature_and_vcf_feature_reply c';
  if increment =? 0 then Raise ZeroDivisionError
  else
    let value := (value - 3000) `div` increment in
    if value =? current then Ret tt
    else
      let value := clamp value max in
      c'' ← lift (getitem name_key vcp_codes "Color Temperature Request");
      _set_vcp_feature c'' value.

(** The four setters of named settings share one shape: translate the
    name, compare with the current code, write. *)
Definition set_named (table : gmap string Z) (feature : string)
    (value : string) : io unit :=
  value ← lift (getitem name_key table value);
  c ← lift (getitem name_key vcp_codes feature);
  '(current, _) ← _get_vcf_feature_and_vcf_feature_reply c;
  if value =? current then Ret tt
  else
    c' ← lift (getitem name_key vcp_codes feature);
    _set_vcp_feature c' value.

Definition set_color_preset : string → io unit :=
  set_named _color_presets_i "Select Color Preset".
Definition set_input_source : string → io unit :=
  set_named _input_sources_i "Input Source".
Definition set_display_application : string → io unit :=
  set_named _display_applications_i "Display Application".
Definition set_power_mode : string → io unit :=
  set_named _power_mode_i "Power Mode".

(** [color[i]] of the rgb setter. *)
Definition color : list string := ["Red"; "Green"; "Blue"].

Definition list_getitem {A} (l : list A) (i : nat) : result A :=
  match l !! i with
  | Some a => Ok a
  | None => Err IndexError
  end.

(** ['Video Gain (Drive): {}'.format(c)] *)
Definition template_format (c : string) : string :=
  "Video Gain (Drive): " +:+ c.

(** One iteration of the loop of the rgb setter. *)
Definition rgb_body (i : nat) (value : Z) : io unit :=
  col ← lift (list_getitem color i);
  let vcp_name := template_format col in
  c ← lift (getitem name_key vcp_codes vcp_name);
  '(current, max) ← _get_vcf_feature_and_vcf_feature_reply c;
  if (value =? -1) || (value =? current) then Ret tt
  else
    let value := clamp value max in
    c' ← lift (getitem name_key vcp_codes vcp_name);
    _set_vcp_feature c' value.

Fixpoint rgb_loop (i : nat) (values : list Z) : io unit :=
  match values with
  | [] => Ret tt
  | value :: values' => _ ← rgb_body i value; rgb_loop (S i) values'
  end.

Definition set_rgb (values : list Z) : io unit := rgb_loop 0 values.

(** ** Running a method against a protocol adapter *)

(** The collaborator behind the two dxva2 calls, over any device state
    [D]: a query answers [None], a write answers [false], when the call
    fails. *)
Record adapter (D : Type) : Type := {
  get_feature : Z → D → option (Z * Z) * D;
  set_feature : Z → Z → D → bool * D;
}.
Arguments get_feature {D} _ _ _.
Arguments set_feature {D} _ _ _ _.

(** The calls a run issues, in order, with the arguments the method passes
    to [_get_vcf_feature_and_vcf_feature_reply] and [_set_vcp_feature]. *)
Inductive event : Type :=
| EvGet (code : Z)
| EvSet (code value : Z).

Fixpoint run {D A} (ad : adapter D) (p : io A) (d : D)
    : result A * D * list event :=
  match p with
  | Ret a => (Ok a, d, [])
  | Raise e => (Err e, d, [])
  | GetVCPFeatureAndVCPFeatureReply c k =>
      match get_feature ad c d with
      | (Some reply, d') =>
          let '(r, d'', t) := run ad (k reply) d' in (r, d'', EvGet c :: t)
      | (None, d') => (Err WinError, d', [EvGet c])
      end
  | SetVCPFeature c v k =>
      match set_feature ad c v d with
      | (true, d') =>
          let '(r, d'', t) := run ad k d' in (r, d'', EvSet c v :: t)
      | (false, d') => (Err WinError, d', [EvSet c v])
      end
  end.

Definition outcome {D A} (x : result A * D * list event) : result A := x.1.1.
Definition trace {D A} (x : result A * D * list event) : list event := x.2.

Definition is_set (e : event) : bool :=
  match e with EvSet _ _ => true | EvGet _ => false end.

(** A call-counting stub: the device is a table from code to (current,
    maximum); a query of an absent code fails, a write stores the value. *)
Definition stub : adapter (gmap Z (Z * Z)) :=
  {| get_feature := λ c d, (d !! c, d);
     set_feature := λ c v d,
       match d !! c with
       | Some (_, m) => (true, <[c := (v, m)]> d)
       | None => (false, d)
       end |}.

Definition panel : gmap Z (Z * Z) :=
  list_to_map [(0x10, (75, 100)); (0x12, (50, 100)); (0x14, (5, 12));
               (0x16, (90, 100)); (0x18, (80, 100)); (0x1A, (70, 100));
               (0x60, (15, 15)); (0xAC, (40000, 65535)); (0xD6, (1, 5));
               (0xDC, (0, 5))].

(** The features the numeric setters drive, and the named settings. *)
Inductive continuous : Type := Brightness | Contrast.

Definition continuous_code (f : continuous) : Z :=
  match f with Brightness => 0x10 | Contrast => 0x12 end.

Definition set_continuous (f : continuous) : Z → io unit :=
  match f with Brightness => set_brightness | Contrast => set_contrast end.

Inductive enumerated : Type :=
| ColorPreset | InputSource | PowerMode | DisplayApplication.

Definition enumerated_table (p : enumerated) : gmap string Z :=
  match p with
  | ColorPreset => _color_presets_i
  | InputSource => _input_sources_i
  | PowerMode => _power_mode_i
  | DisplayApplication => _display_applications_i
  end.

Definition set_enumerated (p : enumerated) : string → io unit :=
  match p with
  | ColorPreset => set_color_preset
  | InputSource => set_input_source
  | PowerMode => set_power_mode
  | DisplayApplication => set_display_application
  end.

(** Codes of the three gains, in the order of [color]. *)
Definition gain_codes : list Z := [0x16; 0x18; 0x1A].

(** ** The getters and [restore] *)

(** The code-to-name tables of the named settings. *)
Definition _color_presets : gmap Z string :=
  list_to_map [(0x01, "srgb"); (0x04, "5000k"); (0x05, "6500k");
               (0x06, "7500k"); (0x08, "9300k"); (0x09, "10000k");
               (0x0B, "5700k"); (0x0C, "user")].

Definition _input_sources : gmap Z string :=
  list_to_map [(0x01, "vga"); (0x03, "dvi"); (0x04, "hdmi"); (0x0F, "dp")].

Definition _display_applications : gmap Z string :=
  list_to_map [(0x00, "std"); (0x02, "mix"); (0x03, "mov"); (0x05, "gam")].

Definition _power_mode : gmap Z string :=
  list_to_map [(0x01, "on"); (0x05, "off")].



Definition _display_controller_type_lsb : gmap Z string :=
  list_to_map [
    (0x01, "Conexant");
    (0x02, "Genesis Microchip");
    (0x03, "Macronix");
    (0x04, "MRT (Media Reality Technologies)");
    (0x05, "Mstar Semiconductor");
    (0x06, "Myson");
    (0x07, "Philips");
    (0x08, "PixelWorks");
    (0x09, "RealTek Semiconductor");
    (0x0A, "Sage");
    (0x0B, "Silicon Image");
    (0x0C, "SmartASIC");
    (0x0D, "STMicroelectronics");
    (0x0E, "Topro");
    (0x0F, "Trumpion");
    (0x10, "Welltrend");
    (0x11, "Samsung");
    (0x12, "Novatek Microelectronics");
    (0x13, "STK");
    (0xFF, "Manufacturer designed controller")].

Definition _restore_options : gmap string string :=
  list_to_map [
    ("all", "Restore Factory Defaults");
    ("luminance", "Restore Factory Luminance/ Contrast Defaults");
    ("color", "Restore Factory Color Defaults")].

(** [_get_vcf_feature_and_vcf_feature_reply(vcp_codes[name])[0]] and
    [...[1]]. *)
Definition current_of (name : string) : io Z :=
  c ← lift (getitem name_key vcp_codes name);
  '(current, _) ← _get_vcf_feature_and_vcf_feature_reply c;
  Ret current.

Definition maximum_of (name : string) : io Z :=
  c ← lift (getitem name_key vcp_codes name);
  '(_, maximum) ← _get_vcf_feature_and_vcf_feature_reply c;
  Ret maximum.

(** [table.get(key)]: [None] is Python's [None]. *)
Definition dict_get {V} (table : gmap Z V) (key : Z) : option V :=
  table !! key.



Definition display_controller_type : io (option string) :=
  value ← current_of "Display Controller Type";
  Ret (dict_get _display_controller_type_lsb (Z.land value 0xff)).

(** ['{}.{}'.format(a, b)] on two ints. *)
Definition format_dotted (a b : Z) : string :=
  pretty a +:+ "." +:+ pretty b.

Definition display_firmware_level : io string :=
  value ← current_of "Display Firmware Level";
  Ret (format_dotted (Z.shiftr value 8) (Z.land value 0x1f)).

Definition application_enable_key : io Z :=
  current_of "Application Enable Key".

Definition vcp_version : io string :=
  value ← current_of "VCP Version";
  Ret (format_dotted (Z.shiftr value 8) (Z.land value 0xff)).

(** As for [horizontal_frequency], the float is the one nearest to the
    rational. *)
Definition vertical_frequency : io Q :=
  value ← current_of "Vertical Frequency";
  Ret (Qmake value 100).

Definition brightness : io Z := current_of "Luminance".
Definition max_brightness : io Z := maximum_of "Luminance".
Definition contrast : io Z := current_of "Contrast".
Definition max_contrast : io Z := maximum_of "Contrast".

Definition max_color_temperature : io Z :=
  value ← maximum_of "Color Temperature Request";
  increment ← current_of "Color Temperature Increment";
  Ret (3000 + increment * value).

(** The four getters of named settings share one shape. *)
Definition get_named (table : gmap Z string) (feature : string)
    : io string :=
  value ← current_of feature;
  lift (getitem show_Z table value).

Definition color_preset : io string :=
  get_named _color_presets "Select Color Preset".
Definition input_source : io string :=
  get_named _input_sources "Input Source".
Definition display_application : io string :=
  get_named _display_applications "Display Application".
Definition power_mode : io string :=
  get_named _power_mode "Power Mode".

(** The list comprehensions of [rgb] and [max_rgb]. *)
Fixpoint gains (field : string → io Z) (colors : list string)
    : io (list Z) :=
  match colors with
  | [] => Ret []
  | col :: colors' =>
      v ← field (template_format col);
      vs ← gains field colors';
      Ret (v :: vs)
  end.

Definition rgb : io (list Z) := gains current_of color.
Definition max_rgb : io (list Z) := gains maximum_of color.

Definition restore (option : string) : io unit :=
  name ← lift (getitem name_key _restore_options option);
  c ← lift (getitem name_key vcp_codes name);
  _set_vcp_feature c 1.

(** The code-to-name table and the feature of a named setting. *)
Definition enumerated_names (p : enumerated) : gmap Z string :=
  match p with
  | ColorPreset => _color_presets
  | InputSource => _input_sources
  | PowerMode => _power_mode
  | DisplayApplication => _display_applications
  end.

Definition enumerated_code (p : enumerated) : Z :=
  match p with
  | ColorPreset => 0x14
  | InputSource => 0x60
  | PowerMode => 0xD6
  | DisplayApplication => 0xDC
  end.

Definition get_enumerated (p : enumerated) : io string :=
  match p with
  | ColorPreset => color_preset
  | InputSource => input_source
  | PowerMode => power_mode
  | DisplayApplication => display_application
  end.

Definition enumerated_feature (p : enumerated) : string :=
  match p with
  | ColorPreset => "Select Color Preset"
  | InputSource => "Input Source"
  | PowerMode => "Power Mode"
  | DisplayApplication => "Display Application"
  end.

Definition get_continuous (f : continuous) : io Z :=
  match f with Brightness => brightness | Contrast => contrast end.

(** The stub device with its identification registers filled in. *)
Definition identified_panel : gmap Z (Z * Z) :=
  <[0xDF := (0x0201, 0xffff)]>
    (<[0xC9 := (0x0101, 0xffff)]> (<[0xC8 := (0x5605, 0xffff)]> panel)).

(** ** Keys of the vcp map *)

(** [k] is the two characters (fewer at the start of the text) in front of
    a whitespace or an opening parenthesis met before position [n]. *)
Definition key_at (s : string) (n : nat) (k : string) : Prop :=
  ∃ (i : nat) (c : ascii),
    (i < n)%nat ∧ chars s !! i = Some c
    ∧ (isspace c = true ∨ c = lparen)
    ∧ k = slice s (Z.of_nat i - 2) (Z.of_nat i).

(** What the loop of [_parse_vcp_list] maintains after [n] characters:
    keys and [code] come from such positions, and every whitespace not
    preceded by a closing parenthesis has left its key. *)
Definition vcp_inv (s : string) (n : nat) (st : vcp_locals) : Prop :=
  (∀ k, is_Some (vcp_dict st !! k) → key_at s n k)
  ∧ (∀ k, code st = Some k → key_at s n k)
  ∧ (∀ (i : nat) (c : ascii),
       (i < n)%nat → chars s !! i = Some c → isspace c = true →
       index s (Z.of_nat i - 1) ≠ Ok rparen →
       is_Some (vcp_dict st !! slice s (Z.of_nat i - 2) (Z.of_nat i))).

(** The map of the body ['14(01 04 05) AC']. *)
Definition example_vcp : gmap string vcp_value :=
  <["14" := Some ["01"; "04"; "05"]]> (<["04" := None]> (<["01" := None]> ∅)).

(** ** Well-formed capabilities strings *)

(** A top-level group is a key and a body; its text is [key(body)], and a
    capabilities string is the groups' texts inside one more pair of
    parentheses. *)
Definition group_text (g : string * string) : list ascii :=
  chars g.1 ++ lparen :: chars g.2 ++ [rparen].

Definition document_text (gs : list (string * string)) : string :=
  str (lparen :: concat (group_text <$> gs) ++ [rparen]).

(** The key has no parenthesis and the body's parentheses match. *)
Definition well_formed_group (g : string * string) : Prop :=
  Forall (λ c, ascii_eqb c lparen = false ∧ ascii_eqb c rparen = false)
         (chars g.1)
  ∧ balanced g.2 = true.

(** What the parser stores for a group: the three-way choice on the key
    in [parse_capabilities_string]. *)
Definition group_value (key body : string) : result cap_value :=
  if String.eqb key "cmds" then Ok (Tokens (split body))
  else if String.eqb key "vcp" then d ← _parse_vcp_list body; Ok (Vcp d)
  else Ok (Raw body).

(** Storing groups in order, a later group replacing an earlier one of
    the same key. *)
Fixpoint store_groups (gs : list (string * string))
    (doc : gmap string cap_value) : result (gmap string cap_value) :=
  match gs with
  | [] => Ok doc
  | (key, body) :: gs' =>
      v ← group_value key body;
      store_groups gs' (<[key := v]> doc)
  end.

(** The groups with the first [skip] characters of the first key
    removed. *)
Definition shorten (skip : nat) (gs : list (string * string))
    : list (string * string) :=
  match gs with
  | [] => []
  | (key, body) :: gs' => (str (drop skip (chars key)), body) :: gs'
  end.

(** A capabilities string of three groups. *)
Definition example_groups : list (string * string) :=
  [("prot", "monitor"); ("model", "U2713HM"); ("vcp", "02 14(01 04) ")].

(** ** The Display object and its cached capabilities *)

(** Exceptions of the object layer: those of the layers below, and three
    more. *)
Inductive py_exn : Type :=
| Raised (e : exn)
| AttributeError (name : string)   (* attribute read before it is set *)
| UnicodeDecodeError               (* bytes.decode('ascii') on a byte >= 0x80 *)
| NameError (name : string)        (* global name that is not defined *)
| TypeError.                       (* None[...] *)

(** The attributes of a [Display].  [__init__] sets [_handle] and
    [_capabilities] only: for [_capabilities_raw], [None] here means that
    the attribute does not exist; once set it holds a [str]. *)
Record Display : Type := {
  _handle : Z;
  _capabilities : option (gmap string cap_value);
  _capabilities_raw : option string;
}.

Definition Display_init (handle : Z) : Display :=
  {| _handle := handle; _capabilities := None; _capabilities_raw := None |}.

(** The two dxva2 calls of [_get_capabilities], over any state [W] of the
    system: [None] when a call returns 0; the reply is the buffer after
    the call. *)
Record capabilities_source (W : Type) : Type := {
  GetCapabilitiesStringLength : Z → W → option Z * W;
  CapabilitiesRequestAndCapabilitiesReply :
    Z → Z → W → option (list ascii) * W;
}.
Arguments GetCapabilitiesStringLength {W} _ _ _.
Arguments CapabilitiesRequestAndCapabilitiesReply {W} _ _ _ _.

Inductive cap_event : Type :=
| EvLength (handle : Z)
| EvRequest (handle length : Z).

(** [buffer.value] of a [c_char] array: the bytes in front of the first
    NUL. *)
Fixpoint c_value (buffer : list ascii) : list ascii :=
  match buffer with
  | [] => []
  | c :: buffer' =>
      if Ascii.eqb c Ascii.zero then [] else c :: c_value buffer'
  end.

(** [bytes.decode('ascii')] *)
Definition decode_ascii (bytes : list ascii) : option string :=
  if forallb (λ c, Nat.ltb (nat_of_ascii c) 128) bytes
  then Some (str bytes) else None.

Definition _get_capabilities {W} (src : capabilities_source W)
    (self : Display) (w : W)
    : option py_exn * Display * W * list cap_event :=
  let h := _handle self in
  match GetCapabilitiesStringLength src h w with
  | (None, w1) => (Some (Raised WinError), self, w1, [EvLength h])
  | (Some length, w1) =>
      match CapabilitiesRequestAndCapabilitiesReply src h length w1 with
      | (None, w2) =>
          (Some (Raised WinError), self, w2, [EvLength h; EvRequest h length])
      | (Some buffer, w2) =>
          match decode_ascii (c_value buffer) with
          | None =>
              (Some UnicodeDecodeError, self, w2,
               [EvLength h; EvRequest h length])
          | Some raw =>
              let self1 :=
                {| _handle := _handle self;
                   _capabilities := _capabilities self;
                   _capabilities_raw := Some raw |} in
              match parse_capabilities_string raw with
              | Err e =>
                  (Some (Raised e), self1, w2,
                   [EvLength h; EvRequest h length])
              | Ok doc =>
                  (None,
                   {| _handle := _handle self;
                      _capabilities := Some doc;
                      _capabilities_raw := Some raw |},
                   w2, [EvLength h; EvRequest h length])
              end
          end
      end
  end.

(** The property [capabilities]; the value returned is [_capabilities] as
    it then is. *)
Definition Display_capabilities {W} (src : capabilities_source W)
    (self : Display) (w : W)
    : (py_exn + option (gmap string cap_value)) * Display * W
      * list cap_event :=
  match _capabilities self with
  | None =>
      match _get_capabilities src self w with
      | (Some e, self', w', t) => (inl e, self', w', t)
      | (None, self', w', t) => (inr (_capabilities self'), self', w', t)
      end
  | Some doc => (inr (Some doc), self, w, [])
  end.

(** The property [capabilities_raw]: the attribute is read first, and is a
    [str] (never [None]) when it exists. *)
Definition Display_capabilities_raw (self : Display)
    : py_exn + string :=
  match _capabilities_raw self with
  | None => inl (AttributeError "_capabilities_raw")
  | Some raw => inr raw
  end.

(** The property [model]: [self.capabilities['model']]. *)
Definition Display_model {W} (src : capabilities_source W)
    (self : Display) (w : W)
    : (py_exn + cap_value) * Display * W * list cap_event :=
  match Display_capabilities src self w with
  | (inl e, self', w', t) => (inl e, self', w', t)
  | (inr None, self', w', t) => (inl TypeError, self', w', t)
  | (inr (Some doc), self', w', t) =>
      (match doc !! "model" with
       | Some v => inr v
       | None => inl (Raised (KeyError "model"))
       end, self', w', t)
  end.

(** The cache is empty, or holds a text and the document parsed from
    it. *)
Definition cache_inv (self : Display) : Prop :=
  match _capabilities_raw self, _capabilities self with
  | None, None => True
  | Some raw, Some doc => parse_capabilities_string raw = Ok doc
  | _, _ => False
  end.

(** A source that answers every request with the same text. *)
Definition fixed_source (text : string) : capabilities_source unit :=
  {| GetCapabilitiesStringLength := λ _ w, (Some (len text + 1), w);
     CapabilitiesRequestAndCapabilitiesReply := λ _ _ w,
       (Some (chars text ++ [Ascii.zero]), w) |}.

(** ** Enumerating the displays *)

(** The three system calls of [get_displays], over any state [W] of the
    system.  [EnumDisplayMonitors] answers whether it succeeded and the
    monitors it has passed to the callback, in order; the other two answer
    [None] when they return 0; the reply of the last is the array after
    the call, by index. *)
Record monitor_enumeration (W : Type) : Type := {
  EnumDisplayMonitors : W → bool * list Z * W;
  GetNumberOfPhysicalMonitorsFromHMONITOR : Z → W → option nat * W;
  GetPhysicalMonitorsFromHMONITOR : Z → nat → W → option (nat → Z) * W;
}.
Arguments EnumDisplayMonitors {W} _ _.
Arguments GetNumberOfPhysicalMonitorsFromHMONITOR {W} _ _ _.
Arguments GetPhysicalMonitorsFromHMONITOR {W} _ _ _ _.

(** The calls of a run with what they answered; for the array, the
    handles read from it. *)
Inductive enum_event : Type :=
| EvEnum (ok : bool)
| EvNumber (monitor : Z) (ok : bool)
| EvPhysical (monitor : Z) (n : nat) (handles : option (list Z)).

(** [for monitor in monitors: ...], with the displays appended so far. *)
Fixpoint displays_loop {W} (sys : monitor_enumeration W) (monitors : list Z)
    (displays : list Display) (w : W)
    : (py_exn + list Display) * W * list enum_event :=
  match monitors with
  | [] => (inr displays, w, [])
  | monitor :: monitors' =>
      match GetNumberOfPhysicalMonitorsFromHMONITOR sys monitor w with
      | (None, w1) => (inl (Raised WinError), w1, [EvNumber monitor false])
      | (Some n, w1) =>
          match GetPhysicalMonitorsFromHMONITOR sys monitor n w1 with
          | (None, w2) =>
              (* raise WinError(): the name is not defined in the module *)
              (inl (NameError "WinError"), w2,
               [EvNumber monitor true; EvPhysical monitor n None])
          | (Some array, w2) =>
              let handles := array <$> seq 0 n in
              let '(r, w3, t) :=
                displays_loop sys monitors'
                  (displays ++ (Display_init <$> handles)) w2 in
              (r, w3,
               EvNumber monitor true :: EvPhysical monitor n (Some handles)
               :: t)
          end
      end
  end.

Definition get_displays {W} (sys : monitor_enumeration W) (w : W)
    : (py_exn + list Display) * W * list enum_event :=
  match EnumDisplayMonitors sys w with
  | (false, _, w1) => (inl (Raised WinError), w1, [EvEnum false])
  | (true, monitors, w1) =>
      let '(r, w2, t) := displays_loop sys monitors [] w1 in
      (r, w2, EvEnum true :: t)
  end.

Definition enum_ok (e : enum_event) : bool :=
  match e with
  | EvEnum ok => ok
  | EvNumber _ ok => ok
  | EvPhysical _ _ handles => bool_decide (is_Some handles)
  end.

(** The handles read from the arrays of a run, in order. *)
Fixpoint handles_of (t : list enum_event) : list Z :=
  match t with
  | [] => []
  | EvPhysical _ _ (Some handles) :: t' => handles ++ handles_of t'
  | _ :: t' => handles_of t'
  end.

(** What a run of [get_displays] that raised [e] ends with. *)
Definition enum_failure (e : py_exn) (last : enum_event) : Prop :=
  match last with
  | EvEnum false => e = Raised WinError
  | EvNumber _ false => e = Raised WinError
  | EvPhysical _ _ None => e = NameError "WinError"
  | _ => False
  end.

(** ** Normal runs of the rgb setter *)


(** What the system answers to the loop of [get_displays] over
    [monitors], from state [w]: either every call succeeds and the arrays
    hold [handles], in order, or a first call fails, which decides the
    exception. *)
Inductive enumerates {W} (sys : monitor_enumeration W)
    : list Z → W → W → list Z → Prop :=
| enumerates_nil (w : W) : enumerates sys [] w w []
| enumerates_cons (monitor : Z) (monitors : list Z) (n : nat)
    (array : nat → Z) (w w1 w2 w3 : W) (handles : list Z) :
    GetNumberOfPhysicalMonitorsFromHMONITOR sys monitor w = (Some n, w1) →
    GetPhysicalMonitorsFromHMONITOR sys monitor n w1 = (Some array, w2) →
    enumerates sys monitors w2 w3 handles →
    enumerates sys (monitor :: monitors) w w3
      ((array <$> seq 0 n) ++ handles).

Inductive enum_fails {W} (sys : monitor_enumeration W)
    : list Z → W → W → py_exn → Prop :=
| enum_fails_number (monitor : Z) (monitors : list Z) (w w1 : W) :
    GetNumberOfPhysicalMonitorsFromHMONITOR sys monitor w = (None, w1) →
    enum_fails sys (monitor :: monitors) w w1 (Raised WinError)
| enum_fails_physical (monitor : Z) (monitors : list Z) (n : nat)
    (w w1 w2 : W) :
    GetNumberOfPhysicalMonitorsFromHMONITOR sys monitor w = (Some n, w1) →
    GetPhysicalMonitorsFromHMONITOR sys monitor n w1 = (None, w2) →
    enum_fails sys (monitor :: monitors) w w2 (NameError "WinError")
| enum_fails_later (monitor : Z) (monitors : list Z) (n : nat)
    (array : nat → Z) (w w1 w2 w3 : W) (e : py_exn) :
    GetNumberOfPhysicalMonitorsFromHMONITOR sys monitor w = (Some n, w1) →
    GetPhysicalMonitorsFromHMONITOR sys monitor n w1 = (Some array, w2) →
    enum_fails sys monitors w2 w3 e →
    enum_fails sys (monitor :: monitors) w w3 e.

(** A system with two monitors, the second of which has two panels. *)
Definition two_monitors : monitor_enumeration unit :=
  {| EnumDisplayMonitors := λ w, (true, [10; 20], w);
     GetNumberOfPhysicalMonitorsFromHMONITOR := λ m w,
       (Some (if m =? 10 then 1%nat else 2%nat), w);
     GetPhysicalMonitorsFromHMONITOR := λ m n w,
       (Some (λ i, m + Z.of_nat i), w) |}.

(** * Properties *)

(** ** Registry lookups *)

Lemma vcp_codes_names_distinct : NoDup vcp_codes_items.*1.
Proof. apply (bool_decide_unpack _). vm_compute. reflexivity. Qed.

Lemma vcp_codes_lookup (name : string) (c : Z) :
  (name, c) ∈ vcp_codes_items ↔ vcp_codes !! name = Some c.
Proof.
  unfold vcp_codes. apply elem_of_list_to_map, vcp_codes_names_distinct.
Qed.

Lemma code_Luminance : getitem name_key vcp_codes "Luminance" = Ok 0x10.
Proof. reflexivity. Qed.

Lemma code_Contrast : getitem name_key vcp_codes "Contrast" = Ok 0x12.
Proof. reflexivity. Qed.

Lemma code_Horizontal_Frequency :
  getitem name_key vcp_codes "Horizontal Frequency" = Ok 0xAC.
Proof. reflexivity. Qed.


(** ** Runs *)

Lemma clamp_range (value max : Z) :
  0 ≤ max → 0 ≤ clamp value max ≤ max.
Proof.
  intros Hmax. unfold clamp.
  destruct (Z.gtb_spec value max), (Z.ltb_spec value 0); lia.
Qed.

Lemma run_bind {D A B} (ad : adapter D) (p : io A) (k : A → io B) (d : D) :
  run ad (p ≫= k) d =
  match run ad p d with
  | (Ok a, d', t) =>
      let '(r, d'', t') := run ad (k a) d' in (r, d'', t ++ t')
  | (Err e, d', t) => (Err e, d', t)
  end.
Proof.
  revert d. induction p as [a|e|c k' IH|c v p IH]; intros d; simpl.
  - change (Ret a ≫= k) with (k a). by destruct (run ad (k a) d) as [[??]?].
  - done.
  - change (run ad (GetVCPFeatureAndVCPFeatureReply c k' ≫= k) d) with
      (match get_feature ad c d with
       | (Some reply, d') =>
           let '(r, d'', t) := run ad (k' reply ≫= k) d' in
           (r, d'', EvGet c :: t)
       | (None, d') => (Err WinError, d', [EvGet c])
       end).
    destruct (get_feature ad c d) as [[reply|] d']; [|done].
    rewrite IH. destruct (run ad (k' reply) d') as [[[a|e] d''] t]; [|done].
    by destruct (run ad (k a) d'') as [[??]?].
  - change (run ad (SetVCPFeature c v p ≫= k) d) with
      (match set_feature ad c v d with
       | (true, d') =>
           let '(r, d'', t) := run ad (p ≫= k) d' in (r, d'', EvSet c v :: t)
       | (false, d') => (Err WinError, d', [EvSet c v])
       end).
    destruct (set_feature ad c v d) as [[|] d']; [|done].
    rewrite IH. destruct (run ad p d') as [[[a|e] d''] t]; [|done].
    by destruct (run ad (k a) d'') as [[??]?].
Qed.

(** A numeric setter, once the feature's code is known. *)
Lemma run_numeric_setter {D} (ad : adapter D) (d d' : D)
    (c value current max : Z) (r : result Z) :
  get_feature ad c d = (Some (current, max), d') →
  r = Ok c →
  run ad ('(current, max) ← _get_vcf_feature_and_vcf_feature_reply c;
          if value =? current then Ret tt
          else c' ← lift r; _set_vcp_feature c' (clamp value max)) d =
  if value =? current then (Ok tt, d', [EvGet c])
  else match set_feature ad c (clamp value max) d' with
       | (true, d'') => (Ok tt, d'', [EvGet c; EvSet c (clamp value max)])
       | (false, d'') =>
           (Err WinError, d'', [EvGet c; EvSet c (clamp value max)])
       end.
Proof.
  intros Hget ->. cbn. rewrite Hget.
  destruct (value =? current); [done|]. cbn.
  by destruct (set_feature ad c (clamp value max) d') as [[|] d''].
Qed.

Lemma run_set_continuous {D} (ad : adapter D) (d d' : D) (f : continuous)
    (value current max : Z) :
  get_feature ad (continuous_code f) d = (Some (current, max), d') →
  run ad (set_continuous f value) d =
  if value =? current then (Ok tt, d', [EvGet (continuous_code f)])
  else match set_feature ad (continuous_code f) (clamp value max) d' with
       | (true, d'') =>
           (Ok tt, d'',
            [EvGet (continuous_code f);
             EvSet (continuous_code f) (clamp value max)])
       | (false, d'') =>
           (Err WinError, d'',
            [EvGet (continuous_code f);
             EvSet (continuous_code f) (clamp value max)])
       end.
Proof.
  intros Hget.
  destruct f; cbn [continuous_code set_continuous] in *.
  - unfold set_brightness.
    rewrite code_Luminance.
    by apply (run_numeric_setter ad d d' 0x10).
  - unfold set_contrast.
    rewrite code_Contrast.
    by apply (run_numeric_setter ad d d' 0x12).
Qed.

(** ** Numeric setters *)

(** C5: for brightness and for contrast, when the requested value is the
    one the setter's own query reports as current, the setter returns
    after that single query: no SetVCPFeature call is issued and the
    device is left as the query left it. *)
Theorem set_continuous_current_is_noop {D} (ad : adapter D) (d d' : D)
    (f : continuous) (value max : Z) :
  get_feature ad (continuous_code f) d = (Some (value, max), d') →
  run ad (set_continuous f value) d
    = (Ok tt, d', [EvGet (continuous_code f)])
  ∧ filter is_set (trace (run ad (set_continuous f value) d)) = [].
Proof.
  intros Hget. rewrite (run_set_continuous ad d d' f value value max Hget).
  by rewrite Z.eqb_refl.
Qed.

Lemma set_continuous_current_is_noop_witness :
  (run stub (set_continuous Brightness 75) panel
     = (Ok tt, panel, [EvGet 0x10])
   ∧ filter is_set (trace (run stub (set_continuous Brightness 75) panel))
     = [])
  ∧ (run stub (set_continuous Contrast 50) panel
       = (Ok tt, panel, [EvGet 0x12])
     ∧ filter is_set (trace (run stub (set_continuous Contrast 50) panel))
       = []).
Proof.
  split.
  - apply (set_continuous_current_is_noop stub panel panel Brightness 75 100).
    reflexivity.
  - apply (set_continuous_current_is_noop stub panel panel Contrast 50 100).
    reflexivity.
Defined.

(** C6: with a reported maximum of 100, the brightness setter called with
    150 issues one query and then exactly one write, of 100; called with
    -10 it issues exactly one write, of 0 (the current value differing
    from the request in both cases); any request that differs from the
    current value leads to exactly one write, of a value in [0, 100]. *)
Theorem set_brightness_clamps {D} (ad : adapter D) (d d' : D)
    (current : Z) :
  get_feature ad 0x10 d = (Some (current, 100), d') →
  (current ≠ 150 →
     trace (run ad (set_brightness 150) d) = [EvGet 0x10; EvSet 0x10 100])
  ∧ (current ≠ -10 →
     trace (run ad (set_brightness (-10)) d) = [EvGet 0x10; EvSet 0x10 0])
  ∧ (∀ value, value ≠ current →
     ∃ w, trace (run ad (set_brightness value) d) = [EvGet 0x10; EvSet 0x10 w]
          ∧ 0 ≤ w ≤ 100).
Proof.
  intros Hget.
  assert (Hrun : ∀ value, value ≠ current →
    trace (run ad (set_brightness value) d)
      = [EvGet 0x10; EvSet 0x10 (clamp value 100)]).
  { intros value Hne.
    pose proof (run_set_continuous ad d d' Brightness value current 100 Hget)
      as Hr.
    cbn [set_continuous continuous_code] in Hr. rewrite Hr.
    destruct (Z.eqb_spec value current) as [|_]; [done|].
    by destruct (set_feature ad 0x10 (clamp value 100) d') as [[|] d'']. }
  split; [|split].
  - intros Hne. by rewrite Hrun.
  - intros Hne. by rewrite Hrun.
  - intros value Hne. exists (clamp value 100). split; [by apply Hrun|].
    by apply clamp_range.
Qed.

Lemma set_brightness_clamps_witness :
  trace (run stub (set_brightness 150) panel) = [EvGet 0x10; EvSet 0x10 100]
  ∧ trace (run stub (set_brightness (-10)) panel)
    = [EvGet 0x10; EvSet 0x10 0].
Proof.
  destruct (set_brightness_clamps stub panel panel 75) as (Hhigh & Hlow & _);
    [reflexivity|].
  split; [apply Hhigh; lia|apply Hlow; lia].
Defined.

(** ** Named settings *)

Lemma run_set_named_unknown {D} (ad : adapter D) (d : D)
    (table : gmap string Z) (feature name : string) :
  table !! name = None →
  run ad (set_named table feature name) d = (Err (KeyError name), d, []).
Proof.
  intros Hnone. unfold set_named, getitem. by rewrite Hnone.
Qed.

(** C7: for each of color_preset, input_source, power_mode and
    display_application, setting a name that is not in the setting's
    name-to-code table fails on the table lookup (Python's KeyError, the
    spec's InvalidSettingName) before any call to the device: the run
    issues no query and no write and leaves the device as it was. *)
Theorem set_enumerated_unknown_name {D} (ad : adapter D) (d : D)
    (p : enumerated) (name : string) :
  enumerated_table p !! name = None →
  run ad (set_enumerated p name) d = (Err (KeyError name), d, []).
Proof.
  intros Hnone. destruct p; by apply run_set_named_unknown.
Qed.

Lemma set_enumerated_unknown_name_witness :
  run stub (set_enumerated ColorPreset "neon") panel
    = (Err (KeyError "neon"), panel, []).
Proof.
  apply (set_enumerated_unknown_name stub panel ColorPreset "neon").
  reflexivity.
Defined.

(** ** Read-only fields *)

(** C8: horizontal_frequency returns raw/1000 when the raw current value
    is at least 50000 and (raw | 0x10000)/1000 when it is below; raw 40000
    gives 105.536 and raw 60000 gives 60. *)
Theorem horizontal_frequency_decode {D} (ad : adapter D) (d d' : D)
    (raw max : Z) :
  get_feature ad 0xAC d = (Some (raw, max), d') →
  ∃ q, run ad horizontal_frequency d = (Ok q, d', [EvGet 0xAC])
       ∧ (50000 ≤ raw → q = Qmake raw 1000)
       ∧ (raw < 50000 → q = Qmake (Z.lor raw 0x10000) 1000)
       ∧ (raw = 40000 → (q == 105.536)%Q)
       ∧ (raw = 60000 → (q == 60.0)%Q).
Proof.
  intros Hget. unfold horizontal_frequency.
  rewrite code_Horizontal_Frequency.
  cbn. rewrite Hget.
  eexists. split; [reflexivity|].
  destruct (Z.ltb_spec raw 50000); repeat split; intros; subst;
    try lia; reflexivity.
Qed.

Lemma horizontal_frequency_decode_witness :
  ∃ q, run stub horizontal_frequency panel = (Ok q, panel, [EvGet 0xAC])
       ∧ (q == 105.536)%Q.
Proof.
  destruct (horizontal_frequency_decode stub panel panel 40000 65535)
    as (q & Hrun & _ & _ & Hq & _); [reflexivity|].
  exists q. split; [exact Hrun|]. apply Hq. reflexivity.
Defined.

(** C9: the registry has no entry named 'Color Temperature Request' or
    'Color Temperature Increment'; the color_temperature getter and setter
    therefore fail with KeyError on their first registry lookup, before
    any call to the device. *)
Theorem color_temperature_unregistered :
  vcp_codes !! "Color Temperature Request" = None
  ∧ vcp_codes !! "Color Temperature Increment" = None
  ∧ ∀ D (ad : adapter D) (d : D),
      run ad color_temperature d
        = (Err (KeyError "Color Temperature Request"), d, [])
      ∧ ∀ value, run ad (set_color_temperature value) d
                 = (Err (KeyError "Color Temperature Request"), d, []).
Proof.
  split; [reflexivity|]. split; [reflexivity|].
  intros D ad d. split; [reflexivity|]. intros value. reflexivity.
Qed.

(** ** The parser on the canonical string *)

(** C1: on the canonical capabilities string the parser returns a document
    with model 'U2713HM', cmds ['01','02','03'], and a vcp map in which
    '02' is None, '14' is ['01','04','05'] and '60' is
    ['01','03','04','0F']; the last code of the vcp body, 'AC', which no
    whitespace follows, is not a key of that map. *)
Theorem parse_canonical :
  match parse_capabilities_string canonical with
  | Ok doc =>
      doc !! "model" = Some (Raw "U2713HM")
      ∧ doc !! "cmds" = Some (Tokens ["01"; "02"; "03"])
      ∧ match doc !! "vcp" with
        | Some (Vcp vcp) =>
            vcp !! "02" = Some None
            ∧ vcp !! "14" = Some (Some ["01"; "04"; "05"])
            ∧ vcp !! "60" = Some (Some ["01"; "03"; "04"; "0F"])
            ∧ vcp !! "AC" = None
        | _ => False
        end
  | Err _ => False
  end.
Proof. vm_compute. repeat split. Qed.

(** C2: on the canonical string the leading '(' opens no level, and the
    keys of the later groups are the identifiers in front of them, but the
    first group is stored under 'rot': position 0 sets close_p[0] to 1 and
    the key is read from close_p[0] + 1, so 'prot' is not a key. *)
Theorem parse_canonical_first_key :
  match parse_capabilities_string canonical with
  | Ok doc =>
      doc !! "prot" = None
      ∧ doc !! "rot" = Some (Raw "monitor")
      ∧ doc !! "type" = Some (Raw "lcd")
      ∧ doc !! "mccs_ver" = Some (Raw "2.1")
  | Err _ => False
  end.
Proof. vm_compute. repeat split. Qed.

(** C10: on the body '14(01 04 05) AC' the map of _parse_vcp_list has the
    value tokens '01' and '04' of the sub-group as keys, bound to None,
    next to the code '14', and has no key for the final code 'AC'. *)
Theorem parse_vcp_list_keys :
  match _parse_vcp_list "14(01 04 05) AC" with
  | Ok vcp =>
      vcp !! "14" = Some (Some ["01"; "04"; "05"])
      ∧ vcp !! "01" = Some None
      ∧ vcp !! "04" = Some None
      ∧ vcp !! "AC" = None
      ∧ size vcp = 3%nat
  | Err _ => False
  end.
Proof. vm_compute. repeat split. Qed.

(** ** The rgb setter *)

Lemma rgb_body_eq (i : nat) (value c : Z) :
  gain_codes !! i = Some c →
  rgb_body i value =
  ('(current, max) ← _get_vcf_feature_and_vcf_feature_reply c;
   if (value =? -1) || (value =? current) then Ret tt
   else _set_vcp_feature c (clamp value max)).
Proof.
  destruct i as [|[|[|i]]]; cbn [gain_codes lookup list_lookup];
    intros [= <-]; reflexivity.
Qed.

Lemma run_rgb_body {D} (ad : adapter D) (d : D) (i : nat) (value c : Z) :
  gain_codes !! i = Some c →
  run ad (rgb_body i value) d =
  match get_feature ad c d with
  | (None, d') => (Err WinError, d', [EvGet c])
  | (Some (current, max), d') =>
      if (value =? -1) || (value =? current) then (Ok tt, d', [EvGet c])
      else
        match set_feature ad c (clamp value max) d' with
        | (true, d'') => (Ok tt, d'', [EvGet c; EvSet c (clamp value max)])
        | (false, d'') =>
            (Err WinError, d'', [EvGet c; EvSet c (clamp value max)])
        end
  end.
Proof.
  intros Hc. rewrite (rgb_body_eq i value c Hc). cbn.
  destruct (get_feature ad c d) as [[[current max]|] d']; [|done].
  destruct ((value =? -1) || (value =? current)); [done|]. cbn.
  by destruct (set_feature ad c (clamp value max) d') as [[|] d''].
Qed.

Lemma run_rgb_body_out {D} (ad : adapter D) (d : D) (i : nat) (value : Z) :
  gain_codes !! i = None →
  run ad (rgb_body i value) d = (Err IndexError, d, []).
Proof.
  destruct i as [|[|[|i]]]; cbn [gain_codes lookup list_lookup];
    intros [=]; reflexivity.
Qed.

Lemma run_rgb_loop_cons {D} (ad : adapter D) (d : D) (k : nat) (value : Z)
    (values : list Z) :
  run ad (rgb_loop k (value :: values)) d =
  match run ad (rgb_body k value) d with
  | (Ok _, d', t) =>
      let '(r, d'', t') := run ad (rgb_loop (S k) values) d' in
      (r, d'', t ++ t')
  | (Err e, d', t) => (Err e, d', t)
  end.
Proof. cbn [rgb_loop]. apply run_bind. Qed.







(** ** The parser never raises *)

Lemma first_paren_app (l k : list ascii) :
  first_paren (l ++ k) =
  match first_paren l with
  | Some c => Some c
  | None => first_paren k
  end.
Proof.
  induction l as [|c l IH]; [done|]. cbn.
  destruct (ascii_eqb c lparen); [done|]. by destruct (ascii_eqb c rparen).
Qed.

Lemma first_paren_cases (l : list ascii) :
  first_paren l = None ∨ first_paren l = Some lparen
  ∨ first_paren l = Some rparen.
Proof.
  induction l as [|c l IH]; [by left|]. cbn.
  destruct (ascii_eqb c lparen); [by right; left|].
  destruct (ascii_eqb c rparen); [by right; right|]. done.
Qed.

Lemma chars_str (l : list ascii) : chars (str l) = l.
Proof. apply list_ascii_of_string_of_list_ascii. Qed.

Lemma slice_bound_id (n i : Z) : 0 ≤ i ≤ n → slice_bound n i = i.
Proof.
  intros Hi. unfold slice_bound. destruct (Z.ltb_spec i 0); lia.
Qed.

Lemma chars_slice (s : string) (a b : nat) :
  (a ≤ b ≤ length (chars s))%nat →
  chars (slice s (Z.of_nat a) (Z.of_nat b)) = drop a (take b (chars s)).
Proof.
  intros Hab. unfold slice, len.
  rewrite !slice_bound_id by lia. rewrite chars_str.
  rewrite Nat2Z.id. replace (Z.to_nat (Z.of_nat b - Z.of_nat a)) with
    (b - a)%nat by lia.
  rewrite take_drop_commute. by replace (a + (b - a))%nat with b by lia.
Qed.

Lemma index_total (s : string) (i : Z) :
  - len s ≤ i < len s → ∃ c, index s i = Ok c.
Proof.
  intros Hi. unfold index.
  set (j := if i <? 0 then i + len s else i).
  assert (Hj : 0 ≤ j < len s).
  { unfold j. destruct (Z.ltb_spec i 0); lia. }
  destruct (Z.leb_spec 0 j); [|lia]. destruct (Z.ltb_spec j (len s)); [|lia].
  cbn. unfold len in Hj.
  destruct (lookup_lt_is_Some_2 (chars s) (Z.to_nat j)) as [c ->]; [lia|].
  by exists c.
Qed.

Lemma vcp_loop_total (s : string) (rest pre : list ascii) (st : vcp_locals) :
  chars s = pre ++ rest →
  (code st = None → first_paren pre = None) →
  first_paren (chars s) ≠ Some rparen →
  ∃ st', vcp_loop s (Z.of_nat (length pre)) rest st = Ok st'.
Proof.
  revert pre st. induction rest as [|c rest IH]; intros pre st Hs Hcode Hok.
  { by exists st. }
  assert (Hnext : ∀ st', (code st' = None → first_paren (pre ++ [c]) = None) →
    ∃ st'', vcp_loop s (Z.of_nat (length pre) + 1) rest st' = Ok st'').
  { intros st' Hcode'.
    replace (Z.of_nat (length pre) + 1) with
      (Z.of_nat (length (pre ++ [c]))) by (rewrite length_app; cbn; lia).
    apply IH; [by rewrite <- app_assoc|done|done]. }
  cbn [vcp_loop]. unfold vcp_step.
  destruct (ascii_eqb c lparen) eqn:Hl.
  { cbn. by apply Hnext. }
  destruct (ascii_eqb c rparen) eqn:Hr.
  { destruct (code st) as [c0|] eqn:Hc.
    - cbn. apply Hnext. by cbn.
    - exfalso. apply Hok. rewrite Hs, first_paren_app, (Hcode eq_refl).
      cbn. by rewrite Hl, Hr. }
  assert (Hplain : first_paren pre = None → first_paren (pre ++ [c]) = None).
  { intros Hp. rewrite first_paren_app, Hp. cbn. by rewrite Hl, Hr. }
  destruct (isspace c); [|cbn; apply Hnext; by auto].
  destruct (index_total s (Z.of_nat (length pre) - 1)) as [prev ->].
  { unfold len. rewrite Hs, length_app. cbn. lia. }
  cbn. destruct (negb (ascii_eqb prev rparen)); cbn; apply Hnext; by auto.
Qed.

Lemma parse_vcp_list_total (s : string) :
  first_paren (chars s) ≠ Some rparen → ∃ d, _parse_vcp_list s = Ok d.
Proof.
  intros Hok. unfold _parse_vcp_list.
  destruct (vcp_loop_total s (chars s) []
              {| vcp_dict := ∅; v_open_p := 0; code := None |})
    as [st' Hst']; [done|done|done|].
  change (Z.of_nat (length [])) with 0 in Hst'. rewrite Hst'. by eexists.
Qed.

Lemma cap_inv_init : cap_inv [] cap_init.
Proof.
  split; [by eexists|]. cbn. lia.
Qed.

Lemma first_paren_snoc_keeps (l : list ascii) (c : ascii) :
  first_paren l = Some lparen → first_paren (l ++ [c]) = Some lparen.
Proof. intros Hl. by rewrite first_paren_app, Hl. Qed.

Lemma first_paren_snoc_open (l : list ascii) :
  first_paren l ≠ Some rparen → first_paren (l ++ [lparen]) = Some lparen.
Proof.
  intros Hl. rewrite first_paren_app.
  by destruct (first_paren_cases l) as [->|[->|?]].
Qed.

Lemma first_paren_snoc_plain (l : list ascii) (c : ascii) :
  ascii_eqb c lparen = false → ascii_eqb c rparen = false →
  first_paren (l ++ [c]) = first_paren l.
Proof.
  intros Hl Hr. rewrite first_paren_app. cbn. rewrite Hl, Hr.
  by destruct (first_paren l).
Qed.

Lemma cap_step_total (s : string) (pre rest : list ascii) (c : ascii)
    (st : cap_locals) :
  chars s = pre ++ c :: rest →
  cap_inv pre st →
  ∃ st', cap_step s (Z.of_nat (length pre)) c st = Ok st'
         ∧ cap_inv (pre ++ [c]) st'.
Proof.
  intros Hs [Hclose Hin]. destruct st as [lv caps op cl idn]. cbn in *.
  assert (Hlen : length (pre ++ [c]) = S (length pre)).
  { rewrite length_app. cbn. lia. }
  unfold cap_step. cbn.
  destruct (ascii_eqb c lparen) eqn:Hl.
  { apply Ascii.eqb_eq in Hl as ->.
    destruct (Z.eqb_spec (Z.of_nat (length pre)) 0) as [H0|H0].
    - eexists. split; [done|]. split; cbn.
      + rewrite lookup_insert_eq. by eexists.
      + intros (o & _ & _ & _ & ? & _)%Hin. lia.
    - destruct (Z.eqb_spec lv 0) as [->|Hlv].
      + destruct Hclose as [cp Hcp]. unfold getitem. rewrite Hcp. cbn.
        eexists. split; [done|]. split; cbn; [by eexists|]. intros _.
        exists (length pre). eexists.
        rewrite !lookup_insert_eq. repeat split; [lia| |lia].
        rewrite drop_ge by lia. done.
      + cbn. eexists. split; [done|]. split; cbn; [done|]. intros Hge.
        destruct Hin as (o & k & Hop & Hid & Ho & Hb & Hb2); [lia|].
        exists o, k. rewrite lookup_insert_ne by done.
        rewrite drop_app_le by lia.
        repeat split; [done|done|lia| |].
        * rewrite first_paren_snoc_open; done.
        * intros _. by apply first_paren_snoc_open. }
  destruct (ascii_eqb c rparen) eqn:Hr.
  { destruct (Z.eqb_spec (lv - 1) 0) as [Hlv|Hlv].
    - destruct Hin as (o & k & Hop & Hid & Ho & Hb & _); [lia|].
      unfold getitem. rewrite Hop, Hid. cbn.
      assert (Hvals : chars (slice s (Z.of_nat o + 1) (Z.of_nat (length pre)))
                      = drop (S o) pre).
      { replace (Z.of_nat o + 1) with (Z.of_nat (S o)) by lia.
        rewrite chars_slice.
        - by rewrite Hs, take_app_length.
        - rewrite Hs, length_app. lia. }
      assert (Hv : ∃ v,
        (if String.eqb k "cmds"
         then Ok (Tokens (split (slice s (Z.of_nat o + 1)
                                   (Z.of_nat (length pre)))))
         else
           if String.eqb k "vcp"
           then d ← _parse_vcp_list
                      (slice s (Z.of_nat o + 1) (Z.of_nat (length pre)));
                Ok (Vcp d)
           else Ok (Raw (slice s (Z.of_nat o + 1) (Z.of_nat (length pre)))))
        = Ok v).
      { destruct (String.eqb k "cmds"); [by eexists|].
        destruct (String.eqb k "vcp"); [|by eexists].
        destruct (parse_vcp_list_total
                    (slice s (Z.of_nat o + 1) (Z.of_nat (length pre))))
          as [d ->]; [by rewrite Hvals|].
        by eexists. }
      destruct Hv as [v ->]. cbn.
      eexists. split; [done|]. split; cbn.
      + rewrite Hlv, lookup_insert_eq. by eexists.
      + lia.
    - eexists. split; [done|]. split; cbn.
      + by rewrite lookup_insert_ne.
      + intros Hge. destruct Hin as (o & k & Hop & Hid & Ho & Hb & Hb2); [lia|].
        exists o, k. rewrite drop_app_le by lia.
        assert (first_paren (drop (S o) pre) = Some lparen) as Hopen
          by (apply Hb2; lia).
        repeat split; [done|done|lia| |].
        * by rewrite (first_paren_snoc_keeps _ _ Hopen).
        * intros _. by apply first_paren_snoc_keeps. }
  eexists. split; [done|]. split; cbn; [done|]. intros Hge.
  destruct Hin as (o & k & Hop & Hid & Ho & Hb & Hb2); [done|].
  exists o, k. rewrite drop_app_le by lia.
  rewrite (first_paren_snoc_plain _ _ Hl Hr).
  repeat split; [done|done|lia|done|done].
Qed.

Lemma cap_loop_total (s : string) (rest pre : list ascii) (st : cap_locals) :
  chars s = pre ++ rest →
  cap_inv pre st →
  ∃ st', cap_loop s (Z.of_nat (length pre)) rest st = Ok st'.
Proof.
  revert pre st. induction rest as [|c rest IH]; intros pre st Hs Hinv.
  { by exists st. }
  destruct (cap_step_total s pre rest c st Hs Hinv) as (st' & Hstep & Hinv').
  cbn [cap_loop]. rewrite Hstep. cbn.
  replace (Z.of_nat (length pre) + 1) with
    (Z.of_nat (length (pre ++ [c]))) by (rewrite length_app; cbn; lia).
  apply IH; [by rewrite <- app_assoc|done].
Qed.

(** C4, as the code has it: parse_capabilities_string validates nothing
    and never raises; whatever the input, balanced or not, hexadecimal or
    not, it returns a document. *)
Theorem parse_capabilities_string_total (capabilities_string : string) :
  ∃ doc, parse_capabilities_string capabilities_string = Ok doc.
Proof.
  unfold parse_capabilities_string.
  destruct (cap_loop_total capabilities_string (chars capabilities_string)
              [] cap_init) as [st Hst]; [done|apply cap_inv_init|].
  change (Z.of_nat (length [])) with 0 in Hst. rewrite Hst. by eexists.
Qed.

(** C4 as stated fails: a string whose last group is never closed yields
    the document of the groups closed before it, and a vcp group with the
    token 'ZZ' yields a document with 'ZZ' as a code. *)
Lemma parse_malformed_returns_document :
  balanced "(prot(monitor)model(U2713HM)cmds(01 02" = false
  ∧ match parse_capabilities_string
            "(prot(monitor)model(U2713HM)cmds(01 02" with
    | Ok doc => doc !! "model" = Some (Raw "U2713HM") ∧ doc !! "cmds" = None
    | Err _ => False
    end
  ∧ match parse_capabilities_string "(prot(monitor)vcp(ZZ 14(01)))" with
    | Ok doc =>
        match doc !! "vcp" with
        | Some (Vcp vcp) => vcp !! "ZZ" = Some None
        | _ => False
        end
    | Err _ => False
    end.
Proof. vm_compute. repeat split. Qed.

(** * Further properties *)

(** ** Queries and named settings *)

Lemma run_current_of {D} (ad : adapter D) (d : D) (name : string) (c : Z) :
  vcp_codes !! name = Some c →
  run ad (current_of name) d =
  match get_feature ad c d with
  | (Some (current, _), d') => (Ok current, d', [EvGet c])
  | (None, d') => (Err WinError, d', [EvGet c])
  end.
Proof.
  intros Hc. unfold current_of, getitem. rewrite Hc. cbn.
  by destruct (get_feature ad c d) as [[[current maximum]|] d'].
Qed.

Lemma run_maximum_of {D} (ad : adapter D) (d : D) (name : string) (c : Z) :
  vcp_codes !! name = Some c →
  run ad (maximum_of name) d =
  match get_feature ad c d with
  | (Some (_, maximum), d') => (Ok maximum, d', [EvGet c])
  | (None, d') => (Err WinError, d', [EvGet c])
  end.
Proof.
  intros Hc. unfold maximum_of, getitem. rewrite Hc. cbn.
  by destruct (get_feature ad c d) as [[[current maximum]|] d'].
Qed.

Lemma enumerated_feature_code (p : enumerated) :
  vcp_codes !! enumerated_feature p = Some (enumerated_code p).
Proof. by destruct p. Qed.

Lemma set_enumerated_eq (p : enumerated) :
  set_enumerated p = set_named (enumerated_table p) (enumerated_feature p).
Proof. by destruct p. Qed.

Lemma get_enumerated_eq (p : enumerated) :
  get_enumerated p = get_named (enumerated_names p) (enumerated_feature p).
Proof. by destruct p. Qed.

Lemma run_set_enumerated {D} (ad : adapter D) (d d' : D) (p : enumerated)
    (name : string) (v current maximum : Z) :
  enumerated_table p !! name = Some v →
  get_feature ad (enumerated_code p) d = (Some (current, maximum), d') →
  run ad (set_enumerated p name) d =
  if v =? current then (Ok tt, d', [EvGet (enumerated_code p)])
  else
    match set_feature ad (enumerated_code p) v d' with
    | (true, d'') =>
        (Ok tt, d'', [EvGet (enumerated_code p); EvSet (enumerated_code p) v])
    | (false, d'') =>
        (Err WinError, d'',
         [EvGet (enumerated_code p); EvSet (enumerated_code p) v])
    end.
Proof.
  intros Hname Hget. rewrite set_enumerated_eq. unfold set_named, getitem.
  rewrite Hname, (enumerated_feature_code p). cbn. rewrite Hget.
  destruct (v =? current); [done|]. cbn.
  by destruct (set_feature ad (enumerated_code p) v d') as [[|] d''].
Qed.

(** X1: setting a named setting to a name of its table queries the
    setting's feature once; when the table's code is the current value
    nothing is written, otherwise exactly that code is written, as it
    stands, whatever maximum the device reports. *)
Theorem set_enumerated_known_name {D} (ad : adapter D) (d d' : D)
    (p : enumerated) (name : string) (v current maximum : Z) :
  enumerated_table p !! name = Some v →
  get_feature ad (enumerated_code p) d = (Some (current, maximum), d') →
  trace (run ad (set_enumerated p name) d) =
  if v =? current then [EvGet (enumerated_code p)]
  else [EvGet (enumerated_code p); EvSet (enumerated_code p) v].
Proof.
  intros Hname Hget.
  rewrite (run_set_enumerated ad d d' p name v current maximum Hname Hget).
  destruct (v =? current); [done|].
  by destruct (set_feature ad (enumerated_code p) v d') as [[|] d''].
Qed.

Lemma set_enumerated_known_name_witness :
  trace (run stub (set_enumerated InputSource "hdmi") panel)
    = [EvGet 0x60; EvSet 0x60 0x04].
Proof.
  apply (set_enumerated_known_name stub panel panel InputSource "hdmi"
           0x04 15 15); reflexivity.
Defined.

Lemma run_get_enumerated {D} (ad : adapter D) (d d' : D) (p : enumerated)
    (current maximum : Z) :
  get_feature ad (enumerated_code p) d = (Some (current, maximum), d') →
  run ad (get_enumerated p) d =
  (match enumerated_names p !! current with
   | Some name => Ok name
   | None => Err (KeyError (show_Z current))
   end, d', [EvGet (enumerated_code p)]).
Proof.
  intros Hget. rewrite get_enumerated_eq. unfold get_named.
  rewrite run_bind, (run_current_of ad d _ _ (enumerated_feature_code p)).
  rewrite Hget. unfold getitem.
  by destruct (enumerated_names p !! current).
Qed.

Ltac list_cases H :=
  repeat (apply elem_of_cons in H as [H|H]; [simplify_eq; reflexivity|]);
  by apply elem_of_nil in H.

(** X2: for each named setting the name-to-code table and the code-to-name
    table are inverse of each other: a name has code c in the first
    exactly when c has that name in the second. *)
Theorem enumerated_tables_inverse (p : enumerated) (name : string) (c : Z) :
  enumerated_table p !! name = Some c ↔ enumerated_names p !! c = Some name.
Proof.
  split; intros H; destruct p;
    apply elem_of_list_to_map_2 in H; list_cases H.
Qed.

(** X3: a getter of a named setting queries the feature once and fails
    with KeyError, after that query, when the device reports a code that
    the setting's table does not list (the power mode table lists 1 and 5
    only, so the standby code 4 of the registry's comment is such a
    code). *)
Theorem get_enumerated_unlisted_code {D} (ad : adapter D) (d d' : D)
    (p : enumerated) (current maximum : Z) :
  get_feature ad (enumerated_code p) d = (Some (current, maximum), d') →
  enumerated_names p !! current = None →
  run ad (get_enumerated p) d
    = (Err (KeyError (show_Z current)), d', [EvGet (enumerated_code p)]).
Proof.
  intros Hget Hnone.
  rewrite (run_get_enumerated ad d d' p current maximum Hget).
  by rewrite Hnone.
Qed.

Lemma get_enumerated_unlisted_code_witness :
  run stub (get_enumerated PowerMode) (<[0xD6 := (4, 5)]> panel)
    = (Err (KeyError "4"), <[0xD6 := (4, 5)]> panel, [EvGet 0xD6]).
Proof.
  apply (get_enumerated_unlisted_code stub _ _ PowerMode 4 5); reflexivity.
Defined.

(** X4: on a device that stores what is written to it, setting a named
    setting to a name of its table and reading the setting back returns
    that name. *)
Theorem set_get_enumerated_roundtrip (d : gmap Z (Z * Z)) (p : enumerated)
    (name : string) (v : Z) :
  enumerated_table p !! name = Some v →
  is_Some (d !! enumerated_code p) →
  outcome (run stub (_ ← set_enumerated p name; get_enumerated p) d)
    = Ok name.
Proof.
  intros Hname [[current maximum] Hd].
  apply enumerated_tables_inverse in Hname as Hback.
  rewrite run_bind.
  rewrite (run_set_enumerated stub d d p name v current maximum Hname)
    by (cbn; by rewrite Hd).
  destruct (Z.eqb_spec v current) as [->|Hne].
  - rewrite (run_get_enumerated stub d d p current maximum)
      by (cbn; by rewrite Hd).
    by rewrite Hback.
  - cbn [set_feature stub]. rewrite Hd.
    rewrite (run_get_enumerated stub _ (<[enumerated_code p := (v, maximum)]> d)
               p v maximum)
      by (cbn; by rewrite lookup_insert_eq).
    by rewrite Hback.
Qed.

Lemma set_get_enumerated_roundtrip_witness :
  outcome (run stub (_ ← set_enumerated InputSource "hdmi";
                     get_enumerated InputSource) panel) = Ok "hdmi".
Proof.
  apply (set_get_enumerated_roundtrip panel InputSource "hdmi" 0x04).
  - reflexivity.
  - by eexists.
Defined.

(** ** [restore] *)

(** X5: restore never queries the device.  For 'all', 'luminance' and
    'color' it issues exactly one write, of the value 1, to the feature
    0x04, 0x05 and 0x08 respectively; for any other option (the
    docstring's 'colors' included) it raises KeyError with no call to the
    device. *)
Theorem restore_single_write {D} (ad : adapter D) (d : D) (option : string) :
  match _restore_options !! option with
  | Some _ =>
      ∃ c, (option = "all" ∧ c = 0x04 ∨ option = "luminance" ∧ c = 0x05
            ∨ option = "color" ∧ c = 0x08)
           ∧ trace (run ad (restore option) d) = [EvSet c 1]
  | None => run ad (restore option) d = (Err (KeyError option), d, [])
  end
  ∧ _restore_options !! "colors" = None.
Proof.
  split; [|reflexivity].
  destruct (_restore_options !! option) as [name|] eqn:Hopt.
  - assert (Hrun : ∀ c, vcp_codes !! name = Some c →
              trace (run ad (restore option) d) = [EvSet c 1]).
    { intros c Hc. unfold restore, getitem. rewrite Hopt.
      change (lift (Ok name) ≫= ?k) with (k name). cbv beta.
      rewrite Hc. cbn. by destruct (set_feature ad c 1 d) as [[|] d']. }
    apply elem_of_list_to_map_2 in Hopt.
    repeat (apply elem_of_cons in Hopt as [Hopt|Hopt];
            [simplify_eq; eexists; split; [|by apply Hrun]; by eauto|]).
    by apply elem_of_nil in Hopt.
  - unfold restore, getitem. by rewrite Hopt.
Qed.

(** ** Numeric settings *)

(** X6: the no-op test of brightness and contrast compares the request
    as given, before it is clamped: a request above the maximum is written
    again, as the maximum, even when the device is already at its
    maximum. *)
Theorem set_continuous_rewrites_bound {D} (ad : adapter D) (d d' : D)
    (f : continuous) (value maximum : Z) :
  get_feature ad (continuous_code f) d = (Some (maximum, maximum), d') →
  maximum < value →
  trace (run ad (set_continuous f value) d)
    = [EvGet (continuous_code f); EvSet (continuous_code f) maximum].
Proof.
  intros Hget Hgt.
  rewrite (run_set_continuous ad d d' f value maximum maximum Hget).
  destruct (Z.eqb_spec value maximum) as [|_]; [lia|].
  assert (clamp value maximum = maximum) as ->.
  { unfold clamp. destruct (Z.gtb_spec value maximum); [done|lia]. }
  by destruct (set_feature ad (continuous_code f) maximum d') as [[|] d''].
Qed.

Lemma set_continuous_rewrites_bound_witness :
  trace (run stub (set_continuous Brightness 150)
           (<[0x10 := (100, 100)]> panel))
    = [EvGet 0x10; EvSet 0x10 100].
Proof.
  apply (set_continuous_rewrites_bound stub _ (<[0x10 := (100, 100)]> panel)
           Brightness 150 100); [reflexivity|lia].
Defined.

Lemma continuous_code_registered (f : continuous) :
  get_continuous f
  = current_of (match f with Brightness => "Luminance" | Contrast => "Contrast" end)
  ∧ vcp_codes !! (match f with Brightness => "Luminance" | Contrast => "Contrast" end)
    = Some (continuous_code f).
Proof. by destruct f. Qed.

(** X7: on a device that stores what is written to it, setting brightness
    or contrast and reading it back returns the request clamped to
    [0, maximum], or the current value when the request equals it. *)
Theorem set_get_continuous (d : gmap Z (Z * Z)) (f : continuous)
    (value current maximum : Z) :
  d !! continuous_code f = Some (current, maximum) →
  outcome (run stub (_ ← set_continuous f value; get_continuous f) d)
    = Ok (if value =? current then current else clamp value maximum).
Proof.
  intros Hd. destruct (continuous_code_registered f) as [-> Hc].
  rewrite run_bind.
  rewrite (run_set_continuous stub d d f value current maximum)
    by (cbn; by rewrite Hd).
  destruct (value =? current).
  - rewrite (run_current_of stub d _ _ Hc). cbn. by rewrite Hd.
  - cbn [set_feature stub]. rewrite Hd.
    rewrite (run_current_of stub _ _ _ Hc). cbn.
    by rewrite lookup_insert_eq.
Qed.

Lemma set_get_continuous_witness :
  outcome (run stub (_ ← set_continuous Brightness 150;
                     get_continuous Brightness) panel) = Ok 100.
Proof.
  apply (set_get_continuous panel Brightness 150 75 100). reflexivity.
Defined.

(** ** The rgb setter and getter *)

(** X8: a list of more than three values makes the rgb setter do exactly
    what it does on the first three values, calls to the device included,
    and then raise IndexError: it never completes normally. *)
Theorem set_rgb_too_long {D} (ad : adapter D) (d : D) (values : list Z) :
  (3 < length values)%nat →
  run ad (set_rgb values) d =
  let '(r, d', t) := run ad (set_rgb (take 3 values)) d in
  (match r with Ok _ => Err IndexError | Err e => Err e end, d', t).
Proof.
  intros Hlen.
  destruct values as [|v0 [|v1 [|v2 [|v3 values]]]]; cbn in Hlen; try lia.
  unfold set_rgb. cbn [take]. rewrite !run_rgb_loop_cons.
  destruct (run ad (rgb_body 0 v0) d) as [[[[]|e0] d0] t0]; [|done].
  rewrite !run_rgb_loop_cons.
  destruct (run ad (rgb_body 1 v1) d0) as [[[[]|e1] d1] t1]; [|done].
  rewrite !run_rgb_loop_cons.
  destruct (run ad (rgb_body 2 v2) d1) as [[[[]|e2] d2] t2]; [|done].
  rewrite run_rgb_loop_cons, (run_rgb_body_out ad d2 3 v3) by done.
  cbn [rgb_loop run]. by rewrite !app_nil_r.
Qed.

Lemma set_rgb_too_long_witness :
  run stub (set_rgb [-1; 80; 200; 3]) panel =
  let '(r, d', t) := run stub (set_rgb (take 3 [-1; 80; 200; 3])) panel in
  (match r with Ok _ => Err IndexError | Err e => Err e end, d', t).
Proof. apply (set_rgb_too_long stub panel [-1; 80; 200; 3]). cbn. lia. Defined.

(** What one iteration of the rgb setter leaves in a channel. *)
Definition gain_after (value current maximum : Z) : Z :=
  if (value =? -1) || (value =? current) then current
  else clamp value maximum.

Lemma run_stub_rgb_body (d : gmap Z (Z * Z)) (i : nat)
    (c value current maximum : Z) :
  gain_codes !! i = Some c →
  d !! c = Some (current, maximum) →
  (run stub (rgb_body i value) d).1
    = (Ok tt, <[c := (gain_after value current maximum, maximum)]> d).
Proof.
  intros Hc Hd. rewrite (run_rgb_body stub d i value c Hc).
  cbn [get_feature set_feature stub]. rewrite Hd. unfold gain_after.
  destruct ((value =? -1) || (value =? current)).
  - cbn [fst]. by rewrite insert_id.
  - done.
Qed.

Lemma run_stub_rgb (d : gmap Z (Z * Z)) (r g b m1 m2 m3 : Z) :
  d !! 0x16 = Some (r, m1) → d !! 0x18 = Some (g, m2) →
  d !! 0x1A = Some (b, m3) →
  outcome (run stub rgb d) = Ok [r; g; b].
Proof.
  intros Hr Hg Hb. unfold rgb, color, gains.
  rewrite !run_bind.
  rewrite (run_current_of stub d (template_format "Red") 0x16) by done.
  cbn [get_feature stub]. rewrite Hr.
  rewrite !run_bind.
  rewrite (run_current_of stub d (template_format "Green") 0x18) by done.
  cbn [get_feature stub]. rewrite Hg.
  rewrite !run_bind.
  rewrite (run_current_of stub d (template_format "Blue") 0x1A) by done.
  cbn [get_feature stub]. rewrite Hb. reflexivity.
Qed.

(** X9: on a device that stores what is written to it, setting three
    gains and reading them back returns, for each channel, the current
    value when the request is -1 or equals it, and otherwise the request
    clamped to [0, maximum]. *)
Theorem set_get_rgb (d : gmap Z (Z * Z)) (v1 v2 v3 c1 c2 c3 m1 m2 m3 : Z) :
  d !! 0x16 = Some (c1, m1) → d !! 0x18 = Some (c2, m2) →
  d !! 0x1A = Some (c3, m3) →
  outcome (run stub (_ ← set_rgb [v1; v2; v3]; rgb) d)
    = Ok [gain_after v1 c1 m1; gain_after v2 c2 m2; gain_after v3 c3 m3].
Proof.
  intros H1 H2 H3. rewrite run_bind. unfold set_rgb.
  rewrite run_rgb_loop_cons.
  pose proof (run_stub_rgb_body d 0 0x16 v1 c1 m1 eq_refl H1) as Hb1.
  destruct (run stub (rgb_body 0 v1) d) as [[r1 d1] t1].
  cbn in Hb1. injection Hb1 as -> ->.
  rewrite run_rgb_loop_cons.
  assert (Hd1 : (<[0x16 := (gain_after v1 c1 m1, m1)]> d) !! 0x18
                = Some (c2, m2)) by (by rewrite lookup_insert_ne).
  pose proof (run_stub_rgb_body _ 1 0x18 v2 c2 m2 eq_refl Hd1) as Hb2.
  destruct (run stub (rgb_body 1 v2) _) as [[r2 d2] t2].
  cbn in Hb2. injection Hb2 as -> ->.
  rewrite run_rgb_loop_cons.
  assert (Hd2 : (<[0x18 := (gain_after v2 c2 m2, m2)]>
                   (<[0x16 := (gain_after v1 c1 m1, m1)]> d)) !! 0x1A
                = Some (c3, m3)) by (by rewrite !lookup_insert_ne).
  pose proof (run_stub_rgb_body _ 2 0x1A v3 c3 m3 eq_refl Hd2) as Hb3.
  destruct (run stub (rgb_body 2 v3) _) as [[r3 d3] t3].
  cbn in Hb3. injection Hb3 as -> ->.
  cbn [rgb_loop run].
  match goal with
  | |- context [run stub rgb ?dev] =>
      pose proof (run_stub_rgb dev (gain_after v1 c1 m1) (gain_after v2 c2 m2)
                    (gain_after v3 c3 m3) m1 m2 m3) as Hrgb
  end.
  destruct (run stub rgb _) as [[rr dd] tt'].
  cbn in *. apply Hrgb.
  - rewrite !(lookup_insert_ne _ _ 0x16) by done. apply lookup_insert_eq.
  - rewrite (lookup_insert_ne _ _ 0x18) by done. apply lookup_insert_eq.
  - apply lookup_insert_eq.
Qed.

Lemma set_get_rgb_witness :
  outcome (run stub (_ ← set_rgb [-1; 40; 200]; rgb) panel)
    = Ok [gain_after (-1) 90 100; gain_after 40 80 100;
          gain_after 200 70 100].
Proof.
  apply (set_get_rgb panel (-1) 40 200 90 80 70 100 100 100); reflexivity.
Defined.

(** ** Identification fields *)

Lemma run_current_of_errors {D} (ad : adapter D) (d : D) (name : string)
    (c : Z) (e : exn) :
  vcp_codes !! name = Some c →
  outcome (run ad (current_of name) d) = Err e → e = WinError.
Proof.
  intros Hc. rewrite (run_current_of ad d name c Hc).
  destruct (get_feature ad c d) as [[[current maximum]|] d']; cbn; congruence.
Qed.



(** X11: display_controller_type looks up the low byte of the reported
    value: the result is the table's entry for value mod 256, whatever the
    upper bytes are. *)
Theorem display_controller_type_low_byte {D} (ad : adapter D) (d d' : D)
    (value maximum : Z) :
  get_feature ad 0xC8 d = (Some (value, maximum), d') →
  run ad display_controller_type d
    = (Ok (_display_controller_type_lsb !! (value `mod` 256)), d',
       [EvGet 0xC8]).
Proof.
  intros Hget. unfold display_controller_type.
  rewrite run_bind, (run_current_of ad d _ 0xC8) by done. rewrite Hget.
  cbn [run]. unfold dict_get.
  change 0xff with (Z.ones 8). by rewrite Z.land_ones.
Qed.

Lemma display_controller_type_low_byte_witness :
  run stub display_controller_type identified_panel
    = (Ok (Some "Mstar Semiconductor"), identified_panel, [EvGet 0xC8]).
Proof.
  apply (display_controller_type_low_byte stub identified_panel
           identified_panel 0x5605 0xffff).
  reflexivity.
Defined.

(** X12: display_firmware_level prints value div 256, a dot, and
    value mod 32 (bits 5 to 7 of the low byte are dropped); vcp_version
    prints value div 256, a dot, and value mod 256. *)
Theorem dotted_versions {D} (ad : adapter D) (d d1 d2 : D)
    (firmware version m1 m2 : Z) :
  get_feature ad 0xC9 d = (Some (firmware, m1), d1) →
  get_feature ad 0xDF d = (Some (version, m2), d2) →
  outcome (run ad display_firmware_level d)
    = Ok (pretty (firmware `div` 256) +:+ "." +:+ pretty (firmware `mod` 32))
  ∧ outcome (run ad vcp_version d)
    = Ok (pretty (version `div` 256) +:+ "." +:+ pretty (version `mod` 256)).
Proof.
  intros Hf Hv. unfold display_firmware_level, vcp_version.
  rewrite !run_bind.
  rewrite (run_current_of ad d _ 0xC9), (run_current_of ad d _ 0xDF) by done.
  rewrite Hf, Hv. cbn [run outcome fst]. unfold format_dotted.
  change 0x1f with (Z.ones 5). change 0xff with (Z.ones 8).
  by rewrite !Z.land_ones, !Z.shiftr_div_pow2.
Qed.

Lemma dotted_versions_witness :
  outcome (run stub display_firmware_level identified_panel) = Ok "1.1"
  ∧ outcome (run stub vcp_version identified_panel) = Ok "2.1".
Proof.
  apply (dotted_versions stub identified_panel identified_panel
           identified_panel 0x0101 0x0201 0xffff 0xffff); reflexivity.
Defined.

(** max_color_temperature looks up 'Color Temperature Request' first,
    like the getter and the setter, and so raises KeyError before any call
    to the device. *)
Theorem max_color_temperature_unregistered {D} (ad : adapter D) (d : D) :
  run ad max_color_temperature d
    = (Err (KeyError "Color Temperature Request"), d, []).
Proof. reflexivity. Qed.

(** ** The vcp map *)

Lemma vcp_loop_unbound (s : string) (rest pre : list ascii)
    (st : vcp_locals) :
  chars s = pre ++ rest →
  code st = None →
  first_paren rest = Some rparen →
  vcp_loop s (Z.of_nat (length pre)) rest st
    = Err (UnboundLocalError "code").
Proof.
  revert pre st. induction rest as [|c rest IH]; intros pre st Hs Hcode Hp.
  { done. }
  assert (Hnext : ∀ st', code st' = None → first_paren rest = Some rparen →
    vcp_loop s (Z.of_nat (length pre) + 1) rest st'
      = Err (UnboundLocalError "code")).
  { intros st' Hcode' Hp'.
    replace (Z.of_nat (length pre) + 1) with
      (Z.of_nat (length (pre ++ [c]))) by (rewrite length_app; cbn; lia).
    apply IH; [by rewrite <- app_assoc|done|done]. }
  cbn [vcp_loop first_paren] in *. unfold vcp_step.
  destruct (ascii_eqb c lparen) eqn:Hl; [done|].
  destruct (ascii_eqb c rparen) eqn:Hr; [by rewrite Hcode|].
  destruct (isspace c); [|cbn; by apply Hnext].
  destruct (index_total s (Z.of_nat (length pre) - 1)) as [prev ->].
  { unfold len. rewrite Hs, length_app. cbn. lia. }
  cbn. destruct (negb (ascii_eqb prev rparen)); cbn; by apply Hnext.
Qed.

(** X13: _parse_vcp_list fails exactly when the first parenthesis of its
    text is a closing one, and then with UnboundLocalError on [code];
    on every other text it returns a map. *)
Theorem parse_vcp_list_error (vcp_list : string) :
  (first_paren (chars vcp_list) = Some rparen
   ↔ _parse_vcp_list vcp_list = Err (UnboundLocalError "code"))
  ∧ (∀ e, _parse_vcp_list vcp_list = Err e → e = UnboundLocalError "code").
Proof.
  assert (Hfail : first_paren (chars vcp_list) = Some rparen →
            _parse_vcp_list vcp_list = Err (UnboundLocalError "code")).
  { intros Hp. unfold _parse_vcp_list.
    pose proof (vcp_loop_unbound vcp_list (chars vcp_list) []
                  {| vcp_dict := ∅; v_open_p := 0; code := None |}
                  eq_refl eq_refl Hp) as Hloop.
    change (Z.of_nat (length [])) with 0 in Hloop. by rewrite Hloop. }
  assert (Hok : first_paren (chars vcp_list) ≠ Some rparen →
            ∃ d, _parse_vcp_list vcp_list = Ok d)
    by apply parse_vcp_list_total.
  split; [split; [done|]|].
  - intros Herr.
    destruct (decide (first_paren (chars vcp_list) = Some rparen)) as [|Hne];
      [done|].
    destruct (Hok Hne) as [d Hd]. congruence.
  - intros e Herr.
    destruct (decide (first_paren (chars vcp_list) = Some rparen)) as [Hp|Hne].
    + rewrite (Hfail Hp) in Herr. congruence.
    + destruct (Hok Hne) as [d Hd]. congruence.
Qed.

Lemma key_at_mono (s : string) (n m : nat) (k : string) :
  (n ≤ m)%nat → key_at s n k → key_at s m k.
Proof.
  intros Hnm (i & c & Hi & Hc & Hkind & Hk). exists i, c.
  repeat split; [lia|done|done|done].
Qed.

Lemma vcp_step_inv (s : string) (n : nat) (c : ascii) (st st' : vcp_locals) :
  chars s !! n = Some c →
  vcp_step s (Z.of_nat n) c st = Ok st' →
  vcp_inv s n st → vcp_inv s (S n) st'.
Proof.
  intros Hc Hstep (Hkeys & Hcode & Hspaces).
  assert (Hold : ∀ k, key_at s n k → key_at s (S n) k).
  { intros k. apply key_at_mono. lia. }
  assert (Hhere : ∀ dict : gmap string vcp_value,
    (isspace c = true → index s (Z.of_nat n - 1) ≠ Ok rparen →
     is_Some (dict !! slice s (Z.of_nat n - 2) (Z.of_nat n))) →
    (∀ k, is_Some (vcp_dict st !! k) → is_Some (dict !! k)) →
    ∀ (i : nat) (c0 : ascii),
      (i < S n)%nat → chars s !! i = Some c0 → isspace c0 = true →
      index s (Z.of_nat i - 1) ≠ Ok rparen →
      is_Some (dict !! slice s (Z.of_nat i - 2) (Z.of_nat i))).
  { intros dict Hnew Hmono i c0 Hi Hc0 Hsp Hprev.
    destruct (decide (i = n)) as [->|Hne].
    - apply Hnew; [congruence|done].
    - apply Hmono. apply (Hspaces i c0); [lia|done|done|done]. }
  assert (Hins : ∀ k0 v k, is_Some (vcp_dict st !! k) →
            is_Some (<[k0 := v]> (vcp_dict st) !! k)).
  { intros k0 v k Hk. apply lookup_insert_is_Some.
    destruct (decide (k0 = k)); eauto. }
  unfold vcp_step in Hstep.
  destruct (ascii_eqb c lparen) eqn:Hl.
  { apply Ascii.eqb_eq in Hl as ->. injection Hstep as <-.
    split; [|split]; cbn.
    - eauto.
    - intros k [= <-]. exists n, lparen. repeat split; [lia|done|by right].
    - apply Hhere; [done|done]. }
  destruct (ascii_eqb c rparen) eqn:Hr.
  { apply Ascii.eqb_eq in Hr as ->.
    destruct (code st) as [c0|] eqn:Hc0; [|done]. injection Hstep as <-.
    split; [|split]; cbn.
    - intros k [->|[_ Hk]]%lookup_insert_is_Some; eauto.
    - intros k Hk. eauto.
    - apply Hhere; [done|]. apply Hins. }
  destruct (isspace c) eqn:Hsp.
  2: { injection Hstep as <-. split; [|split]; eauto.
       apply Hhere; [done|done]. }
  destruct (index s (Z.of_nat n - 1)) as [prev|e] eqn:Hprev; [|done].
  cbn in Hstep.
  destruct (ascii_eqb prev rparen) eqn:Hpr; cbn in Hstep;
    injection Hstep as <-.
  - apply Ascii.eqb_eq in Hpr as ->. split; [|split]; eauto.
    apply Hhere; [|done]. by intros _ ?.
  - split; [|split]; cbn.
    + intros k [<-|[_ Hk]]%lookup_insert_is_Some; [|by eauto].
      exists n, c. repeat split; [lia|done|by left].
    + eauto.
    + apply Hhere; [|apply Hins].
      intros _ _. rewrite lookup_insert_eq. by eexists.
Qed.

Lemma vcp_loop_inv (s : string) (rest pre : list ascii)
    (st st' : vcp_locals) :
  chars s = pre ++ rest →
  vcp_loop s (Z.of_nat (length pre)) rest st = Ok st' →
  vcp_inv s (length pre) st → vcp_inv s (length (chars s)) st'.
Proof.
  revert pre st. induction rest as [|c rest IH]; intros pre st Hs Hloop Hinv.
  { injection Hloop as <-. by rewrite Hs, app_nil_r. }
  cbn [vcp_loop] in Hloop.
  destruct (vcp_step s (Z.of_nat (length pre)) c st) as [st1|e] eqn:Hstep;
    [|done].
  cbn in Hloop.
  replace (Z.of_nat (length pre) + 1) with
    (Z.of_nat (length (pre ++ [c]))) in Hloop
    by (rewrite length_app; cbn; lia).
  apply (IH (pre ++ [c]) st1); [by rewrite <- app_assoc|done|].
  replace (length (pre ++ [c])) with (S (length pre))
    by (rewrite length_app; cbn; lia).
  apply (vcp_step_inv s (length pre) c st st1); [|done|done].
  rewrite Hs. by rewrite list_lookup_middle.
Qed.

Lemma parse_vcp_list_inv (s : string) (d : gmap string vcp_value) :
  _parse_vcp_list s = Ok d →
  ∃ st, vcp_dict st = d ∧ vcp_inv s (length (chars s)) st.
Proof.
  unfold _parse_vcp_list. intros Hparse.
  destruct (vcp_loop s 0 (chars s)
              {| vcp_dict := ∅; v_open_p := 0; code := None |})
    as [st|e] eqn:Hloop; [|done].
  injection Hparse as <-. exists st. split; [done|].
  apply (vcp_loop_inv s (chars s) [] _ st eq_refl Hloop).
  split; [|split]; cbn.
  - intros k [v Hk]. by rewrite lookup_empty in Hk.
  - done.
  - intros i c Hi. lia.
Qed.

Lemma length_str (l : list ascii) : String.length (str l) = length l.
Proof. unfold str. induction l as [|c l IH]; [done|]. cbn. by f_equal. Qed.

Lemma slice_two (s : string) (i : Z) :
  (String.length (slice s (i - 2) i) ≤ 2)%nat.
Proof.
  unfold slice. rewrite length_str, length_take.
  assert (slice_bound (len s) i - slice_bound (len s) (i - 2) ≤ 2).
  { unfold slice_bound, len.
    destruct (Z.ltb_spec i 0), (Z.ltb_spec (i - 2) 0); lia. }
  lia.
Qed.

Lemma parse_example_vcp : _parse_vcp_list "14(01 04 05) AC" = Ok example_vcp.
Proof. vm_compute. reflexivity. Qed.

(** X14: every key of the map returned by _parse_vcp_list is the slice
    [i-2:i] of the text at a position i that holds a whitespace or an
    opening parenthesis; a key therefore has at most two characters. *)
Theorem parse_vcp_list_key_origin (vcp_list : string)
    (d : gmap string vcp_value) (k : string) :
  _parse_vcp_list vcp_list = Ok d →
  is_Some (d !! k) →
  key_at vcp_list (length (chars vcp_list)) k ∧ (String.length k ≤ 2)%nat.
Proof.
  intros (st & <- & Hkeys & _)%parse_vcp_list_inv Hk.
  pose proof (Hkeys k Hk) as Hat. split; [done|].
  destruct Hat as (i & c & _ & _ & _ & ->). apply slice_two.
Qed.

Lemma parse_vcp_list_key_origin_witness :
  key_at "14(01 04 05) AC" (length (chars "14(01 04 05) AC")) "14"
  ∧ (String.length "14" ≤ 2)%nat.
Proof.
  apply (parse_vcp_list_key_origin "14(01 04 05) AC" example_vcp "14").
  - exact parse_example_vcp.
  - by eexists.
Defined.

Lemma slice_prefix (s1 s2 : string) (t : list ascii) (a i : Z) :
  chars s1 = chars s2 ++ t →
  0 ≤ a → 0 ≤ i ≤ len s2 →
  slice s1 a i = slice s2 a i.
Proof.
  intros Hs Ha Hi. unfold slice, len in *. rewrite Hs, length_app.
  unfold slice_bound.
  destruct (Z.ltb_spec a 0) as [|_]; [lia|].
  destruct (Z.ltb_spec i 0) as [|_]; [lia|].
  rewrite !(Z.min_l i) by lia.
  destruct (decide (a ≤ i)) as [Hai|Hai].
  - rewrite !(Z.min_l a) by lia. f_equal.
    rewrite drop_app_le by lia. apply take_app_le.
    rewrite length_drop. lia.
  - replace (Z.to_nat (i - _ `min` Z.of_nat (length (chars s2) + length t)))
      with 0%nat by lia.
    by replace (Z.to_nat (i - _ `min` Z.of_nat (length (chars s2))))
      with 0%nat by lia.
Qed.

Lemma slice_two_start (s : string) (i : nat) :
  (i < length (chars s))%nat → (i < 2)%nat →
  slice s (Z.of_nat i - 2) (Z.of_nat i) = "".
Proof.
  intros Hlen Hi. unfold slice.
  assert (slice_bound (len s) (Z.of_nat i)
          - slice_bound (len s) (Z.of_nat i - 2) ≤ 0) as Hle.
  { unfold slice_bound, len.
    destruct (Z.ltb_spec (Z.of_nat i) 0), (Z.ltb_spec (Z.of_nat i - 2) 0);
      lia. }
  by replace (Z.to_nat _) with 0%nat by lia.
Qed.

Lemma slice_two_prefix (s1 s2 : string) (t : list ascii) (i : nat) :
  chars s1 = chars s2 ++ t →
  (i < length (chars s2))%nat →
  slice s1 (Z.of_nat i - 2) (Z.of_nat i)
    = slice s2 (Z.of_nat i - 2) (Z.of_nat i).
Proof.
  intros Hs Hi. destruct (decide (i < 2)%nat) as [Hsmall|Hbig].
  - rewrite !slice_two_start; [done|done|done| |done].
    rewrite Hs, length_app. lia.
  - apply (slice_prefix s1 s2 t); [done|lia|]. unfold len. lia.
Qed.

Lemma index_prefix (s1 s2 : string) (t : list ascii) (j : Z) :
  chars s1 = chars s2 ++ t →
  0 ≤ j < len s2 →
  index s1 j = index s2 j.
Proof.
  intros Hs Hj. unfold index, len in *. rewrite Hs, length_app.
  destruct (Z.ltb_spec j 0) as [|_]; [lia|].
  destruct (Z.leb_spec 0 j) as [_|]; [|lia].
  destruct (Z.ltb_spec j (Z.of_nat (length (chars s2) + length t)))
    as [_|]; [|lia].
  destruct (Z.ltb_spec j (Z.of_nat (length (chars s2)))) as [_|]; [|lia].
  cbn. by rewrite lookup_app_l by lia.
Qed.

(** A step inside the first part of a text does not look at what follows
    it, the whitespace at position 0 apart (it reads the last
    character). *)
Lemma vcp_step_prefix (s1 s2 : string) (t : list ascii) (i : nat) (c : ascii)
    (st : vcp_locals) :
  chars s1 = chars s2 ++ t →
  (i < length (chars s2))%nat →
  (i = 0%nat → isspace c = false) →
  0 ≤ v_open_p st →
  vcp_step s1 (Z.of_nat i) c st = vcp_step s2 (Z.of_nat i) c st.
Proof.
  intros Hs Hi Hfirst Hopen. unfold vcp_step.
  rewrite (slice_two_prefix s1 s2 t i Hs Hi).
  rewrite (slice_prefix s1 s2 t (v_open_p st + 1) (Z.of_nat i) Hs)
    by (unfold len; lia).
  destruct (ascii_eqb c lparen); [done|].
  destruct (ascii_eqb c rparen); [done|].
  destruct (isspace c) eqn:Hsp; [|done].
  rewrite (index_prefix s1 s2 t (Z.of_nat i - 1) Hs); [done|].
  unfold len. assert (i ≠ 0%nat) by (intros ->; by specialize (Hfirst eq_refl)).
  lia.
Qed.

Lemma vcp_step_open_p (s : string) (i : Z) (c : ascii) (st st' : vcp_locals) :
  vcp_step s i c st = Ok st' → 0 ≤ i → 0 ≤ v_open_p st → 0 ≤ v_open_p st'.
Proof.
  unfold vcp_step. intros Hstep Hi Hopen.
  destruct (ascii_eqb c lparen); [by injection Hstep as <-|].
  destruct (ascii_eqb c rparen).
  { destruct (code st); [by injection Hstep as <-|done]. }
  destruct (isspace c); [|by injection Hstep as <-].
  destruct (index s (i - 1)) as [prev|]; [|done]. cbn in Hstep.
  destruct (negb (ascii_eqb prev rparen)); by injection Hstep as <-.
Qed.

Lemma vcp_loop_prefix (s1 s2 : string) (t rest pre : list ascii)
    (st : vcp_locals) :
  chars s1 = chars s2 ++ t →
  chars s2 = pre ++ rest →
  (pre = [] → ∀ c, head rest = Some c → isspace c = false) →
  0 ≤ v_open_p st →
  vcp_loop s1 (Z.of_nat (length pre)) rest st
    = vcp_loop s2 (Z.of_nat (length pre)) rest st.
Proof.
  intros Hs. revert pre st.
  induction rest as [|c rest IH]; intros pre st Hs2 Hfirst Hopen; [done|].
  cbn [vcp_loop].
  rewrite (vcp_step_prefix s1 s2 t (length pre) c st Hs); [| | |done].
  - destruct (vcp_step s2 (Z.of_nat (length pre)) c st) as [st'|e] eqn:Hstep;
      [|done].
    cbn. replace (Z.of_nat (length pre) + 1) with
      (Z.of_nat (length (pre ++ [c]))) by (rewrite length_app; cbn; lia).
    apply IH.
    + by rewrite <- app_assoc.
    + by intros [_ [=]]%app_eq_nil.
    + apply (vcp_step_open_p _ _ _ _ _ Hstep); [lia|done].
  - rewrite Hs2, length_app. cbn. lia.
  - intros Hzero. apply (Hfirst (nil_length_inv _ Hzero)). done.
Qed.

Lemma vcp_loop_app (s : string) (l1 l2 : list ascii) (i : Z)
    (st : vcp_locals) :
  vcp_loop s i (l1 ++ l2) st =
  (st' ← vcp_loop s i l1 st; vcp_loop s (i + Z.of_nat (length l1)) l2 st').
Proof.
  revert i st. induction l1 as [|c l1 IH]; intros i st.
  { cbn. by rewrite Z.add_0_r. }
  cbn [app vcp_loop length].
  destruct (vcp_step s i c st) as [st1|e]; [|done]. cbn.
  rewrite IH. by replace (i + 1 + Z.of_nat (length l1))
    with (i + Z.of_nat (S (length l1))) by lia.
Qed.

Lemma vcp_loop_plain (s : string) (l : list ascii) (i : Z) (st : vcp_locals) :
  Forall (λ c, isspace c = false ∧ c ≠ lparen ∧ c ≠ rparen) l →
  vcp_loop s i l st = Ok st.
Proof.
  intros Hl. revert i. induction Hl as [|c l (Hsp & Hl1 & Hl2) _ IH]; intros i.
  { done. }
  cbn [vcp_loop]. unfold vcp_step, ascii_eqb.
  rewrite (proj2 (Ascii.eqb_neq c lparen) Hl1).
  rewrite (proj2 (Ascii.eqb_neq c rparen) Hl2). rewrite Hsp. cbn. apply IH.
Qed.

(** X15: a run of characters that are neither whitespace nor parentheses,
    appended to a text that does not begin with a whitespace, is ignored
    by _parse_vcp_list: the result, map or error, is that of the text
    alone.  A bare code at the end of the body is thus never stored
    ('02 04 AC' parses like '02 04 '). *)
Theorem parse_vcp_list_tail_ignored (vcp_list : string) (tail : list ascii) :
  Forall (λ c, isspace c = false ∧ c ≠ lparen ∧ c ≠ rparen) tail →
  (∀ c, head (chars vcp_list) = Some c → isspace c = false) →
  _parse_vcp_list (str (chars vcp_list ++ tail)) = _parse_vcp_list vcp_list.
Proof.
  intros Htail Hfirst. unfold _parse_vcp_list.
  assert (Hs : chars (str (chars vcp_list ++ tail)) = chars vcp_list ++ tail)
    by apply chars_str.
  rewrite Hs, vcp_loop_app.
  rewrite (vcp_loop_prefix _ vcp_list tail (chars vcp_list) [] _ Hs eq_refl)
    by done.
  change (Z.of_nat (length [])) with 0.
  destruct (vcp_loop vcp_list 0 (chars vcp_list) _) as [st|e]; [|done].
  cbn [mbind result_bind]. by rewrite (vcp_loop_plain _ _ _ _ Htail).
Qed.

Lemma parse_vcp_list_tail_ignored_witness :
  _parse_vcp_list (str (chars "14(01 04 05) " ++ chars "AC"))
    = _parse_vcp_list "14(01 04 05) ".
Proof.
  apply (parse_vcp_list_tail_ignored "14(01 04 05) " (chars "AC")).
  - repeat constructor; done.
  - intros c [= <-]. reflexivity.
Defined.

(** X16: every whitespace of the text whose preceding character
    ([vcp_list[i-1]], the last character for i = 0) is not a closing
    parenthesis leaves the slice [i-2:i] as a key of the returned map; a
    whitespace at position 0 or 1 leaves the empty string as a key. *)
Theorem parse_vcp_list_whitespace_key (vcp_list : string)
    (d : gmap string vcp_value) (i : nat) (c : ascii) :
  _parse_vcp_list vcp_list = Ok d →
  chars vcp_list !! i = Some c →
  isspace c = true →
  index vcp_list (Z.of_nat i - 1) ≠ Ok rparen →
  is_Some (d !! slice vcp_list (Z.of_nat i - 2) (Z.of_nat i))
  ∧ ((i < 2)%nat → is_Some (d !! "")).
Proof.
  intros (st & <- & _ & _ & Hspaces)%parse_vcp_list_inv Hc Hsp Hprev.
  assert (Hkey : is_Some (vcp_dict st
                            !! slice vcp_list (Z.of_nat i - 2) (Z.of_nat i))).
  { apply (Hspaces i c); [|done|done|done].
    by apply lookup_lt_Some in Hc. }
  split; [done|]. intros Hi.
  assert (slice vcp_list (Z.of_nat i - 2) (Z.of_nat i) = "") as Hempty.
  { unfold slice.
    assert (Hlen : Z.of_nat i < len vcp_list).
    { unfold len. apply lookup_lt_Some in Hc. lia. }
    assert (slice_bound (len vcp_list) (Z.of_nat i)
            - slice_bound (len vcp_list) (Z.of_nat i - 2) ≤ 0) as Hle.
    { unfold slice_bound.
      destruct (Z.ltb_spec (Z.of_nat i) 0), (Z.ltb_spec (Z.of_nat i - 2) 0);
        lia. }
    replace (Z.to_nat _) with 0%nat by lia. done. }
  by rewrite <- Hempty.
Qed.

Lemma parse_vcp_list_whitespace_key_witness :
  is_Some (example_vcp !! slice "14(01 04 05) AC" (Z.of_nat 5 - 2) (Z.of_nat 5))
  ∧ ((5 < 2)%nat → is_Some (example_vcp !! "")).
Proof.
  apply (parse_vcp_list_whitespace_key "14(01 04 05) AC" example_vcp 5
           " "%char).
  - exact parse_example_vcp.
  - reflexivity.
  - reflexivity.
  - vm_compute. congruence.
Defined.

(** ** The parser on well-formed strings *)

Lemma str_chars (s : string) : str (chars s) = s.
Proof. apply string_of_list_ascii_of_string. Qed.

Lemma chars_slice_any (s : string) (a b : nat) :
  (a ≤ length (chars s))%nat → (b ≤ length (chars s))%nat →
  chars (slice s (Z.of_nat a) (Z.of_nat b)) = drop a (take b (chars s)).
Proof.
  intros Ha Hb. destruct (decide (a ≤ b)%nat) as [Hab|Hab].
  { by apply chars_slice. }
  unfold slice, len. rewrite !slice_bound_id by lia. rewrite chars_str.
  replace (Z.to_nat (Z.of_nat b - Z.of_nat a)) with 0%nat by lia.
  rewrite take_0. symmetry. apply drop_ge. rewrite length_take. lia.
Qed.

Lemma slice_middle (s : string) (pre mid post : list ascii) :
  chars s = pre ++ mid ++ post →
  slice s (Z.of_nat (length pre)) (Z.of_nat (length pre + length mid))
    = str mid.
Proof.
  intros Hs. rewrite <- (str_chars (slice _ _ _)). f_equal.
  rewrite chars_slice_any; rewrite Hs, ?length_app; try lia.
  rewrite app_assoc, take_app_length'; [|by rewrite length_app].
  by rewrite drop_app_length.
Qed.

Lemma cap_loop_app (s : string) (l1 l2 : list ascii) (i : Z)
    (st : cap_locals) :
  cap_loop s i (l1 ++ l2) st =
  (st' ← cap_loop s i l1 st; cap_loop s (i + Z.of_nat (length l1)) l2 st').
Proof.
  revert i st. induction l1 as [|c l1 IH]; intros i st.
  { cbn. by rewrite Z.add_0_r. }
  cbn [app cap_loop length].
  destruct (cap_step s i c st) as [st1|e]; [|done]. cbn.
  rewrite IH. by replace (i + 1 + Z.of_nat (length l1))
    with (i + Z.of_nat (S (length l1))) by lia.
Qed.

Lemma cap_loop_plain (s : string) (l : list ascii) (i : Z) (st : cap_locals) :
  Forall (λ c, ascii_eqb c lparen = false ∧ ascii_eqb c rparen = false) l →
  cap_loop s i l st = Ok st.
Proof.
  intros Hl. revert i. induction Hl as [|c l [Hc1 Hc2] _ IH]; intros i.
  { done. }
  cbn [cap_loop]. unfold cap_step. rewrite Hc1, Hc2. cbn. apply IH.
Qed.

(** Inside a group the scan of a text with matching parentheses changes
    neither the document nor the entries for level 0. *)
Lemma cap_loop_balanced (s : string) (l : list ascii) (depth : nat) (i : Z)
    (st : cap_locals) :
  balanced_from depth l = true →
  level st = 1 + Z.of_nat depth →
  0 < i →
  ∃ st', cap_loop s i l st = Ok st'
         ∧ level st' = 1
         ∧ capabilities st' = capabilities st
         ∧ open_p st' !! 0 = open_p st !! 0
         ∧ close_p st' !! 0 = close_p st !! 0
         ∧ ident st' = ident st.
Proof.
  revert depth i st. induction l as [|c l IH]; intros depth i st Hbal Hlv Hi.
  { cbn in Hbal. apply Nat.eqb_eq in Hbal as ->. by exists st. }
  cbn [balanced_from cap_loop] in *. unfold cap_step.
  destruct (ascii_eqb c lparen) eqn:Hl.
  { destruct (Z.eqb_spec i 0) as [|_]; [lia|].
    destruct (Z.eqb_spec (level st) 0) as [|_]; [lia|]. cbn.
    edestruct (IH (S depth) (i + 1)) as (st' & -> & ? & ? & Hop & ? & ?);
      [done| |lia|]; [cbn; lia|].
    exists st'. cbn in *. rewrite lookup_insert_ne in Hop by lia. done. }
  destruct (ascii_eqb c rparen) eqn:Hr.
  { destruct depth as [|depth]; [done|].
    destruct (Z.eqb_spec (level st - 1) 0) as [|_]; [lia|]. cbn.
    edestruct (IH depth (i + 1)) as (st' & -> & ? & ? & ? & Hcl & ?);
      [done| |lia|]; [cbn; lia|].
    exists st'. cbn in *. rewrite lookup_insert_ne in Hcl by lia. done. }
  cbn. apply (IH depth); [done|done|lia].
Qed.

Lemma slice_at (s : string) (pre mid post : list ascii) (skip : nat) :
  chars s = pre ++ mid ++ post →
  (skip ≤ length mid + length post)%nat →
  slice s (Z.of_nat (length pre + skip)) (Z.of_nat (length pre + length mid))
    = str (drop skip mid).
Proof.
  intros Hs Hskip. rewrite <- (str_chars (slice _ _ _)). f_equal.
  rewrite chars_slice_any; rewrite Hs, ?length_app; try lia.
  rewrite app_assoc, take_app_length'; [|by rewrite length_app].
  by rewrite drop_app_add.
Qed.

Lemma balanced_first_paren (l : list ascii) :
  balanced_from 0 l = true → first_paren l ≠ Some rparen.
Proof.
  induction l as [|c l IH]; [done|]. cbn.
  destruct (ascii_eqb c lparen); [done|].
  destruct (ascii_eqb c rparen); [done|]. done.
Qed.

Lemma group_value_total (key body : string) :
  balanced body = true → ∃ v, group_value key body = Ok v.
Proof.
  intros Hbal. unfold group_value.
  destruct (String.eqb key "cmds"); [by eexists|].
  destruct (String.eqb key "vcp"); [|by eexists].
  destruct (parse_vcp_list_total body) as [d ->];
    [by apply balanced_first_paren|].
  by eexists.
Qed.

(** One group, scanned at level 0: it is stored under the text between
    [close_p[0] + 1] and its parenthesis, and the scan is back at level 0
    with [close_p[0]] on the group's last character. *)
Lemma cap_loop_group (s : string) (pre post : list ascii) (key body : string)
    (skip : nat) (st : cap_locals) :
  chars s = pre ++ group_text (key, body) ++ post →
  (0 < length pre)%nat →
  (skip ≤ 1)%nat →
  well_formed_group (key, body) →
  level st = 0 →
  close_p st !! 0 = Some (Z.of_nat (length pre + skip) - 1) →
  ∃ v st',
    group_value (str (drop skip (chars key))) body = Ok v
    ∧ cap_loop s (Z.of_nat (length pre)) (group_text (key, body)) st = Ok st'
    ∧ level st' = 0
    ∧ close_p st' !! 0
      = Some (Z.of_nat (length (pre ++ group_text (key, body))) - 1)
    ∧ capabilities st' = <[str (drop skip (chars key)) := v]> (capabilities st).
Proof.
  intros Hs Hpre Hskip [Hkey Hbody] Hlv Hcp. cbn [fst snd] in *.
  destruct (group_value_total (str (drop skip (chars key))) body Hbody)
    as [v Hv].
  exists v. unfold group_text in *. cbn [fst snd] in *.
  (* the key *)
  rewrite cap_loop_app, (cap_loop_plain _ _ _ _ Hkey). cbn [mbind result_bind].
  (* the opening parenthesis *)
  cbn [cap_loop]. unfold cap_step at 1.
  rewrite Ascii.eqb_refl.
  destruct (Z.eqb_spec (Z.of_nat (length pre) + Z.of_nat (length (chars key))) 0)
    as [|_]; [lia|].
  rewrite Hlv. cbn [Z.eqb]. unfold getitem at 1. rewrite Hcp.
  cbn [mbind result_bind].
  replace (Z.of_nat (length pre + skip) - 1 + 1)
    with (Z.of_nat (length pre + skip)) by lia.
  replace (Z.of_nat (length pre) + Z.of_nat (length (chars key)))
    with (Z.of_nat (length pre + length (chars key))) by lia.
  assert (Hs1 : chars s
                = pre ++ chars key ++ (lparen :: chars body ++ [rparen]) ++ post)
    by (rewrite Hs; by rewrite <- app_assoc).
  rewrite (slice_at s pre (chars key) _ skip Hs1)
    by (rewrite !length_app; cbn; lia).
  (* the body *)
  rewrite cap_loop_app.
  match goal with
  | |- context [cap_loop s ?i (chars body) ?st1] =>
      destruct (cap_loop_balanced s (chars body) 0 i st1)
        as (st2 & -> & Hlv2 & Hcaps2 & Hop2 & Hcl2 & Hid2);
        [exact Hbody|cbn; lia|lia|]
  end.
  cbn [mbind result_bind capabilities open_p close_p ident] in *.
  rewrite lookup_insert_eq in Hop2.
  (* the closing parenthesis *)
  cbn [cap_loop]. unfold cap_step.
  replace (ascii_eqb rparen lparen) with false by done.
  rewrite Ascii.eqb_refl, Hlv2. cbn [Z.sub Z.add Z.opp Z.pos_sub Z.eqb].
  unfold getitem. rewrite Hop2, Hid2, lookup_insert_eq.
  cbn [mbind result_bind].
  assert (Hvalues :
    slice s (Z.of_nat (length pre + length (chars key)) + 1)
      (Z.of_nat (length pre + length (chars key)) + 1
       + Z.of_nat (length (chars body))) = body).
  { rewrite <- (str_chars body) at 2.
    replace (Z.of_nat (length pre + length (chars key)) + 1)
      with (Z.of_nat (length (pre ++ chars key ++ [lparen])))
      by (rewrite !length_app; cbn; lia).
    rewrite <- Nat2Z.inj_add. apply (slice_middle s _ _ ([rparen] ++ post)).
    rewrite Hs, <- !app_assoc. cbn [app]. by rewrite <- ?app_assoc. }
  rewrite Hvalues. fold (group_value (str (drop skip (chars key))) body).
  unfold group_value in Hv |- *.
  destruct (String.eqb (str (drop skip (chars key))) "cmds").
  { injection Hv as <-. cbn. eexists. split; [done|]. split; [done|].
    cbn. split; [done|]. split; [|by rewrite Hcaps2].
    rewrite lookup_insert_eq. f_equal. rewrite !length_app. cbn.
    rewrite length_app. cbn. lia. }
  cbn [mbind result_bind].
  destruct (String.eqb (str (drop skip (chars key))) "vcp").
  - destruct (_parse_vcp_list body) as [d|e]; [|done].
    injection Hv as <-. cbn. eexists. split; [done|]. split; [done|].
    cbn. split; [done|]. split; [|by rewrite Hcaps2].
    rewrite lookup_insert_eq. f_equal. rewrite !length_app. cbn.
    rewrite length_app. cbn. lia.
  - injection Hv as <-. cbn. eexists. split; [done|]. split; [done|].
    cbn. split; [done|]. split; [|by rewrite Hcaps2].
    rewrite lookup_insert_eq. f_equal. rewrite !length_app. cbn.
    rewrite length_app. cbn. lia.
Qed.

Lemma shorten_0 (gs : list (string * string)) : shorten 0 gs = gs.
Proof.
  destruct gs as [|[key body] gs]; [done|].
  unfold shorten. by rewrite drop_0, str_chars.
Qed.

Lemma cap_loop_groups (s : string) (gs : list (string * string))
    (pre post : list ascii) (skip : nat) (st : cap_locals) :
  chars s = pre ++ concat (group_text <$> gs) ++ post →
  (0 < length pre)%nat →
  (skip ≤ 1)%nat →
  Forall well_formed_group gs →
  level st = 0 →
  close_p st !! 0 = Some (Z.of_nat (length pre + skip) - 1) →
  ∃ st',
    cap_loop s (Z.of_nat (length pre)) (concat (group_text <$> gs)) st = Ok st'
    ∧ level st' = 0
    ∧ store_groups (shorten skip gs) (capabilities st)
      = Ok (capabilities st').
Proof.
  revert pre skip st.
  induction gs as [|[key body] gs IH]; intros pre skip st Hs Hpre Hskip Hwf
    Hlv Hcp.
  { by exists st. }
  apply Forall_cons in Hwf as [Hg Hwf]. cbn [fmap list_fmap concat] in *.
  rewrite <- app_assoc in Hs.
  destruct (cap_loop_group s pre _ key body skip st Hs Hpre Hskip Hg Hlv Hcp)
    as (v & st1 & Hv & Hloop & Hlv1 & Hcp1 & Hcaps1).
  rewrite cap_loop_app, Hloop. cbn [mbind result_bind].
  rewrite <- Nat2Z.inj_add, <- length_app.
  destruct (IH (pre ++ group_text (key, body)) 0%nat st1)
    as (st' & Hloop' & Hlv' & Hstore); [| | |done|done| |].
  - by rewrite <- app_assoc.
  - rewrite length_app. lia.
  - lia.
  - by rewrite Nat.add_0_r.
  - exists st'. split; [done|]. split; [done|].
    cbn [shorten store_groups]. rewrite Hv. cbn [mbind result_bind].
    by rewrite <- Hcaps1, <- (shorten_0 gs).
Qed.

(** X17: on a capabilities string made of well-formed groups (a key
    without parentheses, a body with matching parentheses) inside the
    outer pair of parentheses, the parser returns the document obtained by
    storing the groups in order, each under its key with the value the key
    selects (cmds: the body's tokens; vcp: the body's code map; otherwise
    the body itself), except that the first group is stored under its key
    without the first character.  The parser succeeds on every such
    string. *)
Theorem parse_well_formed (gs : list (string * string)) :
  Forall well_formed_group gs →
  parse_capabilities_string (document_text gs)
    = store_groups (shorten 1 gs) ∅
  ∧ ∃ doc, store_groups (shorten 1 gs) ∅ = Ok doc.
Proof.
  intros Hwf.
  assert (Hs : chars (document_text gs)
               = [lparen] ++ concat (group_text <$> gs) ++ [rparen])
    by apply chars_str.
  destruct (cap_loop_groups (document_text gs) gs [lparen] [rparen] 1
              {| level := 0; capabilities := ∅; open_p := ∅;
                 close_p := <[0 := 1]> {[ 0 := 0 ]}; ident := ∅ |})
    as (st' & Hloop & Hlv & Hstore);
    [done|cbn; lia|lia|done|done|cbn [close_p]; by rewrite lookup_insert_eq|].
  cbn [capabilities] in Hstore. rewrite Hstore. split; [|by eexists].
  unfold parse_capabilities_string. rewrite Hs.
  change ([lparen] ++ ?l) with (lparen :: l). cbn [cap_loop].
  change (cap_step (document_text gs) 0 lparen cap_init)
    with (Ok {| level := 0; capabilities := ∅; open_p := ∅;
                close_p := <[0 := 1]> {[ 0 := 0 ]}; ident := ∅ |}).
  cbn [mbind result_bind]. rewrite cap_loop_app.
  change (0 + 1) with (Z.of_nat (length [lparen])). rewrite Hloop.
  cbn [mbind result_bind cap_loop]. unfold cap_step.
  replace (ascii_eqb rparen lparen) with false by done.
  rewrite Ascii.eqb_refl, Hlv. done.
Qed.

Lemma example_groups_well_formed : Forall well_formed_group example_groups.
Proof.
  unfold example_groups.
  repeat (apply Forall_cons_2;
          [split; [cbn; repeat constructor|reflexivity]|]).
  constructor.
Qed.

Lemma parse_well_formed_witness :
  parse_capabilities_string (document_text example_groups)
    = store_groups (shorten 1 example_groups) ∅
  ∧ ∃ doc, store_groups (shorten 1 example_groups) ∅ = Ok doc.
Proof. apply (parse_well_formed example_groups example_groups_well_formed). Defined.

Lemma store_groups_app (gs1 gs2 : list (string * string))
    (doc : gmap string cap_value) :
  store_groups (gs1 ++ gs2) doc
    = (doc1 ← store_groups gs1 doc; store_groups gs2 doc1).
Proof.
  revert doc. induction gs1 as [|[key body] gs1 IH]; intros doc; [done|].
  cbn [app store_groups]. destruct (group_value key body) as [v|e]; [|done].
  cbn. apply IH.
Qed.

Lemma store_groups_other (gs : list (string * string))
    (doc doc' : gmap string cap_value) (k : string) :
  store_groups gs doc = Ok doc' → k ∉ gs.*1 → doc' !! k = doc !! k.
Proof.
  revert doc. induction gs as [|[key body] gs IH]; intros doc Hstore Hk.
  { by injection Hstore as <-. }
  cbn [store_groups] in Hstore.
  destruct (group_value key body) as [v|e]; [|done]. cbn in Hstore, Hk.
  apply not_elem_of_cons in Hk as [Hne Hk].
  rewrite (IH _ Hstore Hk). by rewrite lookup_insert_ne.
Qed.

(** X18: in a well-formed capabilities string, a group that is not the
    first one and whose key no later group repeats is found in the
    document under its full key, with the value its key selects. *)
Theorem parse_well_formed_lookup (first : string * string)
    (before after : list (string * string)) (key body : string) :
  Forall well_formed_group (first :: before ++ (key, body) :: after) →
  key ∉ after.*1 →
  ∃ doc v,
    parse_capabilities_string
      (document_text (first :: before ++ (key, body) :: after)) = Ok doc
    ∧ group_value key body = Ok v
    ∧ doc !! key = Some v.
Proof.
  intros Hwf Hkey. destruct (parse_well_formed _ Hwf) as [Hparse [doc Hdoc]].
  exists doc. rewrite Hparse, Hdoc.
  destruct first as [key0 body0]. cbn [shorten] in Hdoc.
  rewrite app_comm_cons, store_groups_app in Hdoc.
  destruct (store_groups (_ :: before) ∅) as [doc1|e];
    cbn [mbind result_bind store_groups] in Hdoc; [|done].
  destruct (group_value key body) as [v|e];
    cbn [mbind result_bind] in Hdoc; [|done].
  exists v. split; [done|]. split; [done|].
  rewrite (store_groups_other _ _ _ _ Hdoc Hkey). apply lookup_insert_eq.
Qed.

Lemma parse_well_formed_lookup_witness :
  ∃ doc v,
    parse_capabilities_string (document_text example_groups) = Ok doc
    ∧ group_value "model" "U2713HM" = Ok v
    ∧ doc !! "model" = Some v.
Proof.
  apply (parse_well_formed_lookup ("prot", "monitor") []
           [("vcp", "02 14(01 04) ")] "model" "U2713HM").
  - exact example_groups_well_formed.
  - cbn. intros [[=]|[]%elem_of_nil]%elem_of_cons.
Defined.

Lemma store_groups_mono (gs : list (string * string))
    (doc doc' : gmap string cap_value) (k : string) :
  store_groups gs doc = Ok doc' → is_Some (doc !! k) → is_Some (doc' !! k).
Proof.
  revert doc. induction gs as [|[key body] gs IH]; intros doc Hstore Hk.
  { by injection Hstore as <-. }
  cbn [store_groups] in Hstore.
  destruct (group_value key body) as [v|e]; [|done]. cbn in Hstore.
  apply (IH _ Hstore). apply lookup_insert_is_Some.
  destruct (decide (key = k)); eauto.
Qed.

(** X19: in a well-formed capabilities string the first group is stored
    under its key without the first character; its full key is not a key
    of the document unless a later group uses it (so 'model(...)' in first position yields 'odel' and no
    'model'); the key is assumed not to be empty. *)
Theorem parse_well_formed_first_key (key body : string)
    (rest : list (string * string)) :
  Forall well_formed_group ((key, body) :: rest) →
  key ∉ rest.*1 →
  key ≠ "" →
  ∃ doc,
    parse_capabilities_string (document_text ((key, body) :: rest)) = Ok doc
    ∧ doc !! key = None
    ∧ is_Some (doc !! str (drop 1 (chars key))).
Proof.
  intros Hwf Hkey Hnonempty.
  assert (Hne : str (drop 1 (chars key)) ≠ key).
  { intros Heq. apply Hnonempty. apply (f_equal chars) in Heq.
    rewrite chars_str in Heq. apply (f_equal length) in Heq.
    rewrite length_drop in Heq. rewrite <- (str_chars key).
    destruct (chars key); [done|]. cbn in Heq. lia. }
  destruct (parse_well_formed _ Hwf) as [Hparse [doc Hdoc]].
  exists doc. rewrite Hparse, Hdoc. cbn [shorten store_groups] in Hdoc.
  destruct (group_value _ body) as [v|e];
    cbn [mbind result_bind] in Hdoc; [|done].
  split; [done|]. split.
  - rewrite (store_groups_other _ _ _ _ Hdoc Hkey).
    by rewrite lookup_insert_ne.
  - apply (store_groups_mono _ _ _ _ Hdoc). rewrite lookup_insert_eq.
    by eexists.
Qed.

Lemma parse_well_formed_first_key_witness :
  ∃ doc,
    parse_capabilities_string
      (document_text [("model", "U2713HM"); ("type", "lcd")]) = Ok doc
    ∧ doc !! "model" = None
    ∧ is_Some (doc !! str (drop 1 (chars "model"))).
Proof.
  apply (parse_well_formed_first_key "model" "U2713HM" [("type", "lcd")]).
  - repeat (apply Forall_cons_2;
            [split; [cbn; repeat constructor|reflexivity]|]).
    constructor.
  - cbn. intros [[=]|[]%elem_of_nil]%elem_of_cons.
  - cbn. congruence.
Defined.

(** ** The cached capabilities *)

Lemma parse_never_raises (s : string) :
  ∃ doc, parse_capabilities_string s = Ok doc.
Proof.
  unfold parse_capabilities_string.
  destruct (cap_loop_total s (chars s) [] cap_init) as [st Hst];
    [done|apply cap_inv_init|].
  change (Z.of_nat (length [])) with 0 in Hst. rewrite Hst. by eexists.
Qed.

(** What [_get_capabilities] can do: fail on a dxva2 call or on the
    decoding and leave the object as it was, or set both attributes. *)
Lemma get_capabilities_cases {W} (src : capabilities_source W)
    (self : Display) (w : W) :
  let '(err, self', w', t) := _get_capabilities src self w in
  (∃ e, err = Some e ∧ self' = self
        ∧ (e = Raised WinError ∨ e = UnicodeDecodeError))
  ∨ (∃ raw doc, err = None
       ∧ parse_capabilities_string raw = Ok doc
       ∧ self' = {| _handle := _handle self; _capabilities := Some doc;
                    _capabilities_raw := Some raw |}).
Proof.
  unfold _get_capabilities.
  destruct (GetCapabilitiesStringLength src (_handle self) w)
    as [[length|] w1]; [|left; eauto].
  destruct (CapabilitiesRequestAndCapabilitiesReply src (_handle self)
              length w1) as [[buffer|] w2]; [|left; eauto].
  destruct (decode_ascii (c_value buffer)) as [raw|]; [|left; eauto].
  destruct (parse_never_raises raw) as [doc Hdoc]. rewrite Hdoc.
  right. eauto.
Qed.

(** X20: once the property capabilities has returned a document, every
    later access returns the same document without any call to dxva2,
    whatever the state of the system. *)
Theorem capabilities_cached {W W'} (src : capabilities_source W)
    (src' : capabilities_source W') (self self' : Display) (w w' : W)
    (w2 : W') (doc : gmap string cap_value) (t : list cap_event) :
  Display_capabilities src self w = (inr (Some doc), self', w', t) →
  Display_capabilities src' self' w2 = (inr (Some doc), self', w2, []).
Proof.
  unfold Display_capabilities at 1.
  destruct (_capabilities self) as [doc0|] eqn:Hcache.
  { intros [= <- <- <- <-]. unfold Display_capabilities. by rewrite Hcache. }
  pose proof (get_capabilities_cases src self w) as Hcases.
  destruct (_get_capabilities src self w) as [[[err self1] w1] t1].
  destruct Hcases as [(e & -> & _)|(raw & doc1 & -> & _ & ->)]; [done|].
  cbn. intros [= <- <- <- <-]. done.
Qed.

Lemma capabilities_cached_witness :
  Display_capabilities (fixed_source "(prot(monitor)model(U2713HM))")
    {| _handle := 1;
       _capabilities :=
         Some (<["model" := Raw "U2713HM"]> {[ "rot" := Raw "monitor" ]});
       _capabilities_raw := Some "(prot(monitor)model(U2713HM))" |} ()
  = (inr (Some (<["model" := Raw "U2713HM"]> {[ "rot" := Raw "monitor" ]})),
     {| _handle := 1;
        _capabilities :=
          Some (<["model" := Raw "U2713HM"]> {[ "rot" := Raw "monitor" ]});
        _capabilities_raw := Some "(prot(monitor)model(U2713HM))" |}, (), []).
Proof.
  apply (capabilities_cached
           (fixed_source "(prot(monitor)model(U2713HM))")
           (fixed_source "(prot(monitor)model(U2713HM))")
           (Display_init 1) _ () () ()
           _ [EvLength 1; EvRequest 1 30]).
  vm_compute. reflexivity.
Defined.

(** X21: an access to capabilities keeps the cache consistent (empty, or
    a text together with the document parsed from it).  It fails only
    when a dxva2 call fails or the reply is not ASCII, and then leaves
    the object as it was, so that the next access fetches again; when it
    succeeds it returns a document, never None. *)
Theorem capabilities_cache_consistent {W} (src : capabilities_source W)
    (self : Display) (w : W) :
  cache_inv self →
  let '(r, self', w', t) := Display_capabilities src self w in
  cache_inv self'
  ∧ (∀ e, r = inl e →
       self' = self ∧ (e = Raised WinError ∨ e = UnicodeDecodeError))
  ∧ (∀ v, r = inr v → ∃ doc, v = Some doc ∧ _capabilities self' = Some doc).
Proof.
  intros Hinv. unfold Display_capabilities.
  destruct (_capabilities self) as [doc0|] eqn:Hcache.
  { split; [done|]. split; [done|]. intros v [= <-]. eauto. }
  pose proof (get_capabilities_cases src self w) as Hcases.
  destruct (_get_capabilities src self w) as [[[err self1] w1] t1].
  destruct Hcases as [(e & -> & -> & He)|(raw & doc1 & -> & Hparse & ->)].
  - split; [done|]. split; [|done]. by intros e' [= <-].
  - split; [done|]. split; [done|]. intros v [= <-]. cbn. eauto.
Qed.

Lemma capabilities_cache_consistent_witness :
  let '(r, self', w', t) :=
    Display_capabilities (fixed_source "(prot(monitor)model(U2713HM))")
      (Display_init 1) () in
  cache_inv self'
  ∧ (∀ e, r = inl e →
       self' = Display_init 1
       ∧ (e = Raised WinError ∨ e = UnicodeDecodeError))
  ∧ (∀ v, r = inr v → ∃ doc, v = Some doc ∧ _capabilities self' = Some doc).
Proof.
  apply (capabilities_cache_consistent
           (fixed_source "(prot(monitor)model(U2713HM))") (Display_init 1) ()).
  exact I.
Defined.

(** X22: capabilities_raw raises AttributeError on a Display that has not
    fetched its capabilities ([__init__] does not set the attribute);
    after a successful access to capabilities it returns the text whose
    parse is the document. *)
Theorem capabilities_raw_needs_capabilities {W} (src : capabilities_source W)
    (self self' : Display) (w w' : W) (doc : gmap string cap_value)
    (t : list cap_event) :
  cache_inv self →
  Display_capabilities src self w = (inr (Some doc), self', w', t) →
  Display_capabilities_raw (Display_init (_handle self))
    = inl (AttributeError "_capabilities_raw")
  ∧ ∃ raw, Display_capabilities_raw self' = inr raw
           ∧ parse_capabilities_string raw = Ok doc.
Proof.
  intros Hinv Hcap. split; [done|].
  pose proof (capabilities_cache_consistent src self w Hinv) as Hcons.
  rewrite Hcap in Hcons. destruct Hcons as (Hinv' & _ & Hdoc).
  destruct (Hdoc _ eq_refl) as (doc' & [= <-] & Hcache).
  unfold cache_inv in Hinv'. unfold Display_capabilities_raw.
  rewrite Hcache in Hinv'.
  destruct (_capabilities_raw self') as [raw|]; [|done]. eauto.
Qed.

Lemma capabilities_raw_needs_capabilities_witness :
  Display_capabilities_raw (Display_init 1)
    = inl (AttributeError "_capabilities_raw")
  ∧ ∃ raw,
      Display_capabilities_raw
        {| _handle := 1;
           _capabilities :=
             Some (<["model" := Raw "U2713HM"]> {[ "rot" := Raw "monitor" ]});
           _capabilities_raw := Some "(prot(monitor)model(U2713HM))" |}
        = inr raw
      ∧ parse_capabilities_string raw
        = Ok (<["model" := Raw "U2713HM"]> {[ "rot" := Raw "monitor" ]}).
Proof.
  apply (capabilities_raw_needs_capabilities
           (fixed_source "(prot(monitor)model(U2713HM))")
           (Display_init 1) _ () () _ [EvLength 1; EvRequest 1 30]).
  - exact I.
  - vm_compute. reflexivity.
Defined.

Lemma c_value_terminated (l junk : list ascii) :
  Forall (λ c, (0 < nat_of_ascii c < 128)%nat) l →
  c_value (l ++ Ascii.zero :: junk) = l.
Proof.
  induction 1 as [|c l Hc _ IH]; [done|]. cbn [app c_value].
  destruct (Ascii.eqb_spec c Ascii.zero) as [->|_].
  { change (nat_of_ascii Ascii.zero) with 0%nat in Hc. lia. }
  by rewrite IH.
Qed.

Lemma decode_ascii_plain (l : list ascii) :
  Forall (λ c, (0 < nat_of_ascii c < 128)%nat) l →
  decode_ascii l = Some (str l).
Proof.
  intros Hl. unfold decode_ascii.
  replace (forallb _ l) with true; [done|]. symmetry.
  apply forallb_forall. intros c Hc%list_elem_of_In.
  rewrite Forall_forall in Hl. apply Nat.ltb_lt. by apply Hl.
Qed.

(** X23: when the monitor answers with a well-formed capabilities string
    of ASCII characters in which the group model(m) is not the first group
    and no later group is keyed 'model', the property model of a new
    Display returns m after exactly one call of each of the two dxva2
    functions. *)
Theorem model_of_well_formed {W} (src : capabilities_source W) (h n : Z)
    (w w1 w2 : W) (junk : list ascii) (first : string * string)
    (before after : list (string * string)) (m : string) :
  Forall well_formed_group (first :: before ++ ("model", m) :: after) →
  "model" ∉ after.*1 →
  Forall (λ c, (0 < nat_of_ascii c < 128)%nat)
    (chars (document_text (first :: before ++ ("model", m) :: after))) →
  GetCapabilitiesStringLength src h w = (Some n, w1) →
  CapabilitiesRequestAndCapabilitiesReply src h n w1
    = (Some (chars (document_text (first :: before ++ ("model", m) :: after))
             ++ Ascii.zero :: junk), w2) →
  ∃ self',
    Display_model src (Display_init h) w
      = (inr (Raw m), self', w2, [EvLength h; EvRequest h n]).
Proof.
  intros Hwf Hkey Hascii Hlen Hreply.
  destruct (parse_well_formed_lookup first before after "model" m Hwf Hkey)
    as (doc & v & Hparse & [= <-] & Hmodel).
  unfold Display_model, Display_capabilities, _get_capabilities.
  cbn [Display_init _capabilities _handle]. rewrite Hlen, Hreply.
  rewrite (c_value_terminated _ _ Hascii), (decode_ascii_plain _ Hascii).
  rewrite str_chars, Hparse. cbn [_capabilities]. rewrite Hmodel.
  by eexists.
Qed.

Lemma example_text_ascii :
  Forall (λ c, (0 < nat_of_ascii c < 128)%nat)
    (chars (document_text example_groups)).
Proof. by apply (bool_decide_unpack _). Qed.

Lemma model_of_well_formed_witness :
  ∃ self',
    Display_model (fixed_source (document_text example_groups))
      (Display_init 1) ()
    = (inr (Raw "U2713HM"), self', (),
       [EvLength 1; EvRequest 1 (len (document_text example_groups) + 1)]).
Proof.
  apply (model_of_well_formed (fixed_source (document_text example_groups))
           1 _ () () () [] ("prot", "monitor") []
           [("vcp", "02 14(01 04) ")] "U2713HM").
  - exact example_groups_well_formed.
  - cbn. intros [[=]|[]%elem_of_nil]%elem_of_cons.
  - exact example_text_ascii.
  - reflexivity.
  - reflexivity.
Defined.

(** ** Enumeration *)

Lemma displays_loop_outcome {W} (sys : monitor_enumeration W)
    (monitors : list Z) (displays : list Display) (w : W) :
  let '(r, w', t) := displays_loop sys monitors displays w in
  match r with
  | inr displays' =>
      forallb enum_ok t = true
      ∧ displays' = displays ++ (Display_init <$> handles_of t)
  | inl e =>
      ∃ t0 last, t = t0 ++ [last] ∧ forallb enum_ok t0 = true
                 ∧ enum_failure e last
  end.
Proof.
  revert displays w. induction monitors as [|monitor monitors IH];
    intros displays w; cbn [displays_loop].
  { by rewrite app_nil_r. }
  destruct (GetNumberOfPhysicalMonitorsFromHMONITOR sys monitor w)
    as [[n|] w1].
  2: { by exists [], (EvNumber monitor false). }
  destruct (GetPhysicalMonitorsFromHMONITOR sys monitor n w1)
    as [[array|] w2].
  2: { by exists [EvNumber monitor true], (EvPhysical monitor n None). }
  specialize (IH (displays ++ (Display_init <$> (array <$> seq 0 n))) w2).
  destruct (displays_loop sys monitors _ w2) as [[[e|displays'] w3] t].
  - destruct IH as (t0 & last & -> & Hok & Hfail).
    exists (EvNumber monitor true
            :: EvPhysical monitor n (Some (array <$> seq 0 n)) :: t0), last.
    by rewrite <- !app_comm_cons.
  - destruct IH as [Hok ->]. split; [done|].
    cbn [handles_of]. by rewrite fmap_app, app_assoc.
Qed.

Lemma displays_loop_enumerates {W} (sys : monitor_enumeration W)
    (monitors : list Z) (w w' : W) (handles : list Z) :
  enumerates sys monitors w w' handles →
  ∀ displays,
    (displays_loop sys monitors displays w).1
      = (inr (displays ++ (Display_init <$> handles)), w').
Proof.
  induction 1 as [w|monitor monitors n array w w1 w2 w3 handles Hn Ha _ IH];
    intros displays; cbn [displays_loop].
  { by rewrite app_nil_r. }
  rewrite Hn, Ha. specialize (IH (displays ++ (Display_init <$> (array <$> seq 0 n)))).
  destruct (displays_loop sys monitors _ w2) as [[r w4] t]. cbn in *.
  by rewrite IH, fmap_app, app_assoc.
Qed.

Lemma displays_loop_fails {W} (sys : monitor_enumeration W)
    (monitors : list Z) (w w' : W) (e : py_exn) :
  enum_fails sys monitors w w' e →
  ∀ displays, (displays_loop sys monitors displays w).1 = (inl e, w').
Proof.
  induction 1 as [monitor monitors w w1 Hn
                 |monitor monitors n w w1 w2 Hn Ha
                 |monitor monitors n array w w1 w2 w3 e Hn Ha _ IH];
    intros displays; cbn [displays_loop].
  - by rewrite Hn.
  - by rewrite Hn, Ha.
  - rewrite Hn, Ha.
    specialize (IH (displays ++ (Display_init <$> (array <$> seq 0 n)))).
    by destruct (displays_loop sys monitors _ w2) as [[r w4] t].
Qed.

Lemma enumerates_or_fails {W} (sys : monitor_enumeration W)
    (monitors : list Z) (w : W) :
  (∃ handles w', enumerates sys monitors w w' handles)
  ∨ (∃ e w', enum_fails sys monitors w w' e).
Proof.
  revert w. induction monitors as [|monitor monitors IH]; intros w.
  { left. exists [], w. constructor. }
  destruct (GetNumberOfPhysicalMonitorsFromHMONITOR sys monitor w)
    as [[n|] w1] eqn:Hn.
  2: { right. eexists _, _. by apply enum_fails_number. }
  destruct (GetPhysicalMonitorsFromHMONITOR sys monitor n w1)
    as [[array|] w2] eqn:Ha.
  2: { right. eexists _, _. by eapply enum_fails_physical. }
  destruct (IH w2) as [(handles & w' & Hok)|(e & w' & Hfail)].
  - left. eexists _, _. by eapply enumerates_cons.
  - right. eexists _, _. by eapply enum_fails_later.
Qed.

(** X24: what get_displays returns is decided by what the system
    answers.  If EnumDisplayMonitors fails it raises WinError.  Otherwise
    it asks, for each monitor in turn, the number of physical monitors and
    then the array: if every call succeeds it returns one new Display,
    with the cache empty, per handle of the arrays, in order; if the first
    call to fail is GetNumberOfPhysicalMonitorsFromHMONITOR it raises
    WinError, and if it is GetPhysicalMonitorsFromHMONITOR it raises
    NameError (the name WinError is not defined); no partial list is
    returned.  One of the two cases always applies. *)
Theorem get_displays_outcome {W} (sys : monitor_enumeration W) (w w1 : W)
    (ok : bool) (monitors : list Z) :
  EnumDisplayMonitors sys w = (ok, monitors, w1) →
  (ok = false → (get_displays sys w).1 = (inl (Raised WinError), w1))
  ∧ (ok = true → ∀ handles w2,
       enumerates sys monitors w1 w2 handles →
       (get_displays sys w).1 = (inr (Display_init <$> handles), w2))
  ∧ (ok = true → ∀ e w2,
       enum_fails sys monitors w1 w2 e →
       (get_displays sys w).1 = (inl e, w2))
  ∧ ((∃ handles w2, enumerates sys monitors w1 w2 handles)
     ∨ (∃ e w2, enum_fails sys monitors w1 w2 e)).
Proof.
  intros Henum. unfold get_displays. rewrite Henum.
  split; [|split; [|split]].
  - by intros ->.
  - intros -> handles w2 Hok.
    pose proof (displays_loop_enumerates sys monitors w1 w2 handles Hok [])
      as Hloop.
    by destruct (displays_loop sys monitors [] w1) as [[r w3] t].
  - intros -> e w2 Hfail.
    pose proof (displays_loop_fails sys monitors w1 w2 e Hfail []) as Hloop.
    by destruct (displays_loop sys monitors [] w1) as [[r w3] t].
  - apply enumerates_or_fails.
Qed.

Lemma get_displays_outcome_witness :
  (get_displays two_monitors ()).1
    = (inr (Display_init <$> [10; 20; 21]), ()).
Proof.
  destruct (get_displays_outcome two_monitors () () true [10; 20] eq_refl)
    as (_ & Hok & _).
  apply Hok; [reflexivity|].
  apply (enumerates_cons two_monitors 10 [20] 1 (λ i, 10 + Z.of_nat i)
           () () () () [20; 21] eq_refl eq_refl).
  apply (enumerates_cons two_monitors 20 [] 2 (λ i, 20 + Z.of_nat i)
           () () () () [] eq_refl eq_refl).
  apply enumerates_nil.
Defined.
